(** * Element framework: impedance, channel frequencies, affinity, compounds

    A shallow embedding of [element_framework.py].  Python floats and numpy
    float64 values are idealised as real numbers: [/], [np.sqrt], [np.log],
    [np.log10], [np.exp] and [**] become the corresponding functions on [R].
    The embedding is meant for arguments inside the domain of these
    operations (non-zero divisors, non-negative square roots, positive
    logarithms); outside of it Python raises or produces nan/inf, while the
    functions on [R] are total. *)

From Stdlib Require Import Reals Lra Lia ZArith String List Bool.
Import ListNotations.

Open Scope R_scope.

(** ** Python numerics *)

Section PythonNumerics.

(** [np.log10] *)
Definition log10 (x : R) : R := ln x / ln 10.

(** [x ** y] on floats *)
Definition py_pow (x y : R) : R := Rpower x y.

(** Built-in [round(x)] with one argument: the nearest integer, a tie
    going to the even neighbour. *)
Definition py_round (x : R) : Z :=
  let n := Int_part x in
  let d := frac_part x in
  if Rlt_dec d (1 / 2) then n
  else if Rlt_dec (1 / 2) d then (n + 1)%Z
  else if Z.even n then n else (n + 1)%Z.

(** Built-in [sum] over floats, starting from 0. *)
Definition py_sum (l : list R) : R := fold_left Rplus l 0.

(** [np.mean] of a non-empty list. *)
Definition np_mean (l : list R) : R := py_sum l / INR (length l).

(** Built-in [min(a, b)]: [b] when [b < a], otherwise [a]. *)
Definition py_min (a b : R) : R := if Rlt_dec b a then b else a.

End PythonNumerics.

(** Rounding convention named by the specification, kept apart from
    [py_round] in order to compare the two. *)
Definition round_half_away_from_zero (x : R) : Z :=
  if Rle_dec 0 x then Int_part (x + 1 / 2)
  else (- Int_part (- x + 1 / 2))%Z.

(** ** Physical constants *)

Definition H_PLANCK_EV : R := 4.135667e-15.

(** ** Element data *)

(** [(atomic_number, atomic_mass_amu, ionization_energy_eV,
      electronegativity_pauling, atomic_radius_pm, electron_config)] *)
Definition ElementTuple : Type := (Z * R * R * option R * R * string)%type.

Definition ELEMENT_DATA : list (string * ElementTuple) :=
  [ ("H",  (1%Z, 1.008, 13.598, Some 2.20, 53, "1s1"));
    ("He", (2%Z, 4.003, 24.587, None, 31, "1s2"));
    ("Li", (3%Z, 6.941, 5.392, Some 0.98, 167, "[He]2s1"));
    ("Be", (4%Z, 9.012, 9.323, Some 1.57, 112, "[He]2s2"));
    ("B",  (5%Z, 10.81, 8.298, Some 2.04, 87, "[He]2s2 2p1"));
    ("C",  (6%Z, 12.01, 11.260, Some 2.55, 77, "[He]2s2 2p2"));
    ("N",  (7%Z, 14.01, 14.534, Some 3.04, 75, "[He]2s2 2p3"));
    ("O",  (8%Z, 16.00, 13.618, Some 3.44, 73, "[He]2s2 2p4"));
    ("F",  (9%Z, 19.00, 17.423, Some 3.98, 71, "[He]2s2 2p5"));
    ("Ne", (10%Z, 20.18, 21.565, None, 69, "[He]2s2 2p6"));
    ("Na", (11%Z, 22.99, 5.139, Some 0.93, 190, "[Ne]3s1"));
    ("Mg", (12%Z, 24.31, 7.646, Some 1.31, 160, "[Ne]3s2"));
    ("Al", (13%Z, 26.98, 5.986, Some 1.61, 143, "[Ne]3s2 3p1"));
    ("Si", (14%Z, 28.09, 8.152, Some 1.90, 118, "[Ne]3s2 3p2"));
    ("P",  (15%Z, 30.97, 10.487, Some 2.19, 110, "[Ne]3s2 3p3"));
    ("S",  (16%Z, 32.07, 10.360, Some 2.58, 103, "[Ne]3s2 3p4"));
    ("Cl", (17%Z, 35.45, 12.968, Some 3.16, 99, "[Ne]3s2 3p5"));
    ("Ar", (18%Z, 39.95, 15.760, None, 97, "[Ne]3s2 3p6"));
    ("K",  (19%Z, 39.10, 4.341, Some 0.82, 243, "[Ar]4s1"));
    ("Ca", (20%Z, 40.08, 6.113, Some 1.00, 194, "[Ar]4s2"));
    ("Sc", (21%Z, 44.96, 6.561, Some 1.36, 184, "[Ar]3d1 4s2"));
    ("Ti", (22%Z, 47.87, 6.828, Some 1.54, 176, "[Ar]3d2 4s2"));
    ("V",  (23%Z, 50.94, 6.746, Some 1.63, 171, "[Ar]3d3 4s2"));
    ("Cr", (24%Z, 52.00, 6.767, Some 1.66, 166, "[Ar]3d5 4s1"));
    ("Mn", (25%Z, 54.94, 7.434, Some 1.55, 161, "[Ar]3d5 4s2"));
    ("Fe", (26%Z, 55.85, 7.902, Some 1.83, 156, "[Ar]3d6 4s2"));
    ("Co", (27%Z, 58.93, 7.881, Some 1.88, 152, "[Ar]3d7 4s2"));
    ("Ni", (28%Z, 58.69, 7.640, Some 1.91, 149, "[Ar]3d8 4s2"));
    ("Cu", (29%Z, 63.55, 7.726, Some 1.90, 145, "[Ar]3d10 4s1"));
    ("Zn", (30%Z, 65.38, 9.394, Some 1.65, 142, "[Ar]3d10 4s2"));
    ("Ga", (31%Z, 69.72, 5.999, Some 1.81, 136, "[Ar]3d10 4s2 4p1"));
    ("Ge", (32%Z, 72.63, 7.900, Some 2.01, 125, "[Ar]3d10 4s2 4p2"));
    ("As", (33%Z, 74.92, 9.815, Some 2.18, 114, "[Ar]3d10 4s2 4p3"));
    ("Se", (34%Z, 78.97, 9.752, Some 2.55, 103, "[Ar]3d10 4s2 4p4"));
    ("Br", (35%Z, 79.90, 11.814, Some 2.96, 94, "[Ar]3d10 4s2 4p5"));
    ("Kr", (36%Z, 83.80, 14.000, None, 88, "[Ar]3d10 4s2 4p6"));
    ("Rb", (37%Z, 85.47, 4.177, Some 0.82, 265, "[Kr]5s1"));
    ("Sr", (38%Z, 87.62, 5.695, Some 0.95, 219, "[Kr]5s2"));
    ("Ag", (47%Z, 107.87, 7.576, Some 1.93, 165, "[Kr]4d10 5s1"));
    ("Sn", (50%Z, 118.71, 7.344, Some 1.96, 145, "[Kr]4d10 5s2 5p2"));
    ("I",  (53%Z, 126.90, 10.451, Some 2.66, 133, "[Kr]4d10 5s2 5p5"));
    ("Cs", (55%Z, 132.91, 3.894, Some 0.79, 298, "[Xe]6s1"));
    ("Ba", (56%Z, 137.33, 5.212, Some 0.89, 253, "[Xe]6s2"));
    ("Au", (79%Z, 196.97, 9.226, Some 2.54, 174, "[Xe]4f14 5d10 6s1"));
    ("Hg", (80%Z, 200.59, 10.438, Some 2.00, 171, "[Xe]4f14 5d10 6s2"));
    ("Pb", (82%Z, 207.2, 7.417, Some 2.33, 154, "[Xe]4f14 5d10 6s2 6p2"));
    ("U",  (92%Z, 238.03, 6.194, Some 1.38, 196, "[Rn]5f3 6d1 7s2")) ]%string.

(** A planetary correspondence is a small string-keyed dictionary. *)
Definition PlanetaryDict : Type := list (string * string).

Definition planetary_entry (planet glyph day quality : string) : PlanetaryDict :=
  [ ("planet", planet); ("symbol", glyph); ("day", day); ("quality", quality) ]%string.

Definition PLANETARY_METALS : list (string * PlanetaryDict) :=
  [ ("Au", planetary_entry "Sun" "☉" "Sunday" "Perfection, illumination");
    ("Ag", planetary_entry "Moon" "☽" "Monday" "Reflection, intuition");
    ("Hg", planetary_entry "Mercury" "☿" "Wednesday" "Transformation, communication");
    ("Cu", planetary_entry "Venus" "♀" "Friday" "Love, beauty, harmony");
    ("Fe", planetary_entry "Mars" "♂" "Tuesday" "Strength, action, will");
    ("Sn", planetary_entry "Jupiter" "♃" "Thursday" "Expansion, abundance");
    ("Pb", planetary_entry "Saturn" "♄" "Saturday" "Structure, limitation, time") ]%string.

Definition ELEMENT_NAMES : list (string * string) :=
  [ ("H", "Hydrogen"); ("He", "Helium"); ("Li", "Lithium"); ("Be", "Beryllium");
    ("B", "Boron"); ("C", "Carbon"); ("N", "Nitrogen"); ("O", "Oxygen");
    ("F", "Fluorine"); ("Ne", "Neon"); ("Na", "Sodium"); ("Mg", "Magnesium");
    ("Al", "Aluminum"); ("Si", "Silicon"); ("P", "Phosphorus"); ("S", "Sulfur");
    ("Cl", "Chlorine"); ("Ar", "Argon"); ("K", "Potassium"); ("Ca", "Calcium");
    ("Sc", "Scandium"); ("Ti", "Titanium"); ("V", "Vanadium"); ("Cr", "Chromium");
    ("Mn", "Manganese"); ("Fe", "Iron"); ("Co", "Cobalt"); ("Ni", "Nickel");
    ("Cu", "Copper"); ("Zn", "Zinc"); ("Ga", "Gallium"); ("Ge", "Germanium");
    ("As", "Arsenic"); ("Se", "Selenium"); ("Br", "Bromine"); ("Kr", "Krypton");
    ("Rb", "Rubidium"); ("Sr", "Strontium"); ("Ag", "Silver"); ("Sn", "Tin");
    ("I", "Iodine"); ("Cs", "Cesium"); ("Ba", "Barium"); ("Au", "Gold");
    ("Hg", "Mercury"); ("Pb", "Lead"); ("U", "Uranium") ]%string.

(** Dictionary access by key: [d.get(k)]. *)
Fixpoint dict_get {A : Type} (d : list (string * A)) (k : string) : option A :=
  match d with
  | [] => None
  | (k', v) :: rest => if String.eqb k k' then Some v else dict_get rest k
  end.

(** [k in d] *)
Definition dict_mem {A : Type} (d : list (string * A)) (k : string) : bool :=
  match dict_get d k with Some _ => true | None => false end.

(** [d.get(k, default)] *)
Definition dict_get_default {A : Type} (d : list (string * A)) (k : string) (dflt : A) : A :=
  match dict_get d k with Some v => v | None => dflt end.

(** A dictionary literal has each key once; then the first binding found
    by [dict_get] is the only one. *)
Fixpoint keys_distinct (keys : list string) : bool :=
  match keys with
  | [] => true
  | k :: rest => negb (existsb (String.eqb k) rest) && keys_distinct rest
  end.

(** ** Data structures *)

Record ElementProfile : Type := mkElementProfile {
  symbol : string;
  name : string;
  atomic_number : Z;
  atomic_mass : R;
  ionization_energy : R;
  electronegativity : option R;
  atomic_radius : R;
  electron_config : string;
  impedance : R;
  impedance_log : R;
  f_quantum : R;
  f_acoustic : R;
  f_chemical : R;
  consciousness_affinity : R;
  nearest_brainwave : string;
  planetary_metal : option PlanetaryDict;
  category : string
}.

(** ** Impedance calculation *)

Definition calculate_atomic_impedance (ionization_ev : R) (electronegativity : option R)
    (radius_pm : R) : R * R :=
  let r_angstrom := radius_pm / 100 in
  let Z :=
    match electronegativity with
    | None => ionization_ev / r_angstrom
    | Some chi => sqrt (ionization_ev * chi) / r_angstrom
    end in
  let Z_log := ln (Z + 1) in
  (Z, Z_log).

Definition calculate_frequencies (ionization_ev atomic_mass_amu : R) : R * R * R :=
  let f_quantum := ionization_ev / H_PLANCK_EV in
  let f_acoustic := 1e13 * py_pow atomic_mass_amu (- 1 / 3) in
  let bond_energy_est := 0.3 * ionization_ev in
  let f_chemical := bond_energy_est / H_PLANCK_EV in
  (f_quantum, f_acoustic, f_chemical).

(** ** Consciousness affinity *)

Definition consciousness_freqs : list (string * R) :=
  [ ("delta", 2); ("theta", 6); ("alpha", 10);
    ("beta", 20); ("gamma", 40); ("high_gamma", 100) ]%string.

(** The integer that the loop body rounds [log_ratio] to. *)
Definition nearest_octave (log_ratio : R) : Z := py_round log_ratio.

(** Affinity of one band, as computed by the loop body. *)
Definition band_affinity (f_acoustic f_brain : R) : R :=
  let ratio := f_acoustic / f_brain in
  let log_ratio := log10 ratio in
  let deviation := Rabs (log_ratio - IZR (nearest_octave log_ratio)) in
  exp (- deviation * 5).

(** One iteration of the loop over [consciousness_freqs]; the state is
    [(best_match, best_affinity)]. *)
Definition affinity_step (f_acoustic : R) (st : string * R) (entry : string * R)
    : string * R :=
  let '(best_match, best_affinity) := st in
  let '(band, f_brain) := entry in
  let affinity := band_affinity f_acoustic f_brain in
  if Rgt_dec affinity best_affinity then (band, affinity)
  else (best_match, best_affinity).

(** The loop, started from [best_match = 'none'], [best_affinity = 0.0];
    it returns the final [(best_match, best_affinity)].  Over the reals
    two bands whose frequencies differ by a power of ten (delta and beta,
    alpha and high_gamma) have equal affinities, and the earlier one is
    kept; in float64 such a pair can differ in the last digit, so there
    the later band can win (see [band_affinity_decade]). *)
Definition best_band (f_acoustic : R) : string * R :=
  fold_left (affinity_step f_acoustic) consciousness_freqs ("none"%string, 0).

Definition calculate_consciousness_affinity (f_quantum f_acoustic f_chemical impedance : R)
    : R * string :=
  let best := best_band f_acoustic in
  let best_match := fst best in
  let best_affinity := snd best in
  let optimal_impedance := 3 in
  let impedance_factor := exp (- ((impedance - optimal_impedance) / 2) ^ 2) in
  let final_affinity := best_affinity * impedance_factor in
  (py_min 1 final_affinity, best_match).

(** ** Classification *)

Definition z_in (n : Z) (l : list Z) : bool := existsb (Z.eqb n) l.

Definition classify_element (atomic_number : Z) (electron_config : string) : string :=
  (if z_in atomic_number [2; 10; 18; 36; 54; 86]%Z then "Noble Gas"
   else if z_in atomic_number [1]%Z then "Nonmetal"
   else if z_in atomic_number [3; 11; 19; 37; 55; 87]%Z then "Alkali Metal"
   else if z_in atomic_number [4; 12; 20; 38; 56; 88]%Z then "Alkaline Earth"
   else if z_in atomic_number [6; 7; 8; 15; 16; 34]%Z then "Nonmetal"
   else if z_in atomic_number [9; 17; 35; 53; 85]%Z then "Halogen"
   else if ((21 <=? atomic_number) && (atomic_number <=? 30)
            || (39 <=? atomic_number) && (atomic_number <=? 48)
            || (72 <=? atomic_number) && (atomic_number <=? 80))%Z
        then "Transition Metal"
   else if ((57 <=? atomic_number) && (atomic_number <=? 71))%Z then "Lanthanide"
   else if ((89 <=? atomic_number) && (atomic_number <=? 103))%Z then "Actinide"
   else "Other Metal")%string.

(** ** Element analysis *)

Definition analyze_element (symbol : string) : option ElementProfile :=
  match dict_get ELEMENT_DATA symbol with
  | None => None
  | Some (Z, mass, E_ion, chi, radius, config) =>
      let '(impedance, impedance_log) := calculate_atomic_impedance E_ion chi radius in
      let '(f_quantum, f_acoustic, f_chemical) := calculate_frequencies E_ion mass in
      let '(affinity, nearest_band) :=
        calculate_consciousness_affinity f_quantum f_acoustic f_chemical impedance in
      let planetary := dict_get PLANETARY_METALS symbol in
      let category := classify_element Z config in
      Some (mkElementProfile symbol (dict_get_default ELEMENT_NAMES symbol symbol)
              Z mass E_ion chi radius config impedance impedance_log
              f_quantum f_acoustic f_chemical affinity nearest_band
              planetary category)
  end.

(** ** Mixture / compound analysis *)

(** The pair returned when one of the two symbols does not resolve. *)
Definition UNKNOWN_ELEMENT : R * string := (0, "Unknown element"%string).

Definition interpret_match (R : R) : string :=
  (if Rgt_dec R 0.8 then "Excellent match - natural affinity"
   else if Rgt_dec R 0.5 then "Good match - can combine with moderate energy"
   else if Rgt_dec R 0.2 then "Weak match - requires significant energy to combine"
   else "Poor match - unlikely to form stable compound")%string.

Definition calculate_impedance_match (element1 element2 : string) : R * string :=
  match analyze_element element1, analyze_element element2 with
  | Some p1, Some p2 =>
      let sigma := 0.5 in
      let delta_log := impedance_log p1 - impedance_log p2 in
      let R := exp (- (delta_log ^ 2) / (2 * sigma ^ 2)) in
      (R, interpret_match R)
  | _, _ => UNKNOWN_ELEMENT
  end.

(** [[p for p in profiles if p is not None]] *)
Fixpoint drop_none {A : Type} (l : list (option A)) : list A :=
  match l with
  | [] => []
  | Some a :: rest => a :: drop_none rest
  | None :: rest => drop_none rest
  end.

(** The nested loop over [enumerate(profiles)] and [profiles[i+1:]]. *)
Fixpoint match_scores (profiles : list ElementProfile) : list R :=
  match profiles with
  | [] => []
  | p1 :: rest =>
      map (fun p2 => fst (calculate_impedance_match (symbol p1) (symbol p2))) rest
        ++ match_scores rest
  end.

Record CompoundResult : Type := mkCompoundResult {
  elements : list string;
  total_mass : R;
  f_acoustic_compound : R;
  f_chemical_avg : R;
  compound_impedance : R;
  average_impedance_match : R;
  stability_prediction : string
}.

(** The dictionary returned by [predict_compound_frequency] has either the
    single key ["error"] or the seven keys of [CompoundResult]. *)
Inductive CompoundDict : Type :=
| ErrorDict (error : string)
| ResultDict (result : CompoundResult).

Definition INSUFFICIENT_ELEMENTS : CompoundDict :=
  ErrorDict "Need at least 2 valid elements"%string.

Definition predict_compound_frequency (elems : list string) : CompoundDict :=
  let profiles := map analyze_element elems in
  let profiles := drop_none profiles in
  if (length profiles <? 2)%nat then INSUFFICIENT_ELEMENTS
  else
    let total_mass := py_sum (map atomic_mass profiles) in
    let f_acoustic_compound := 1e13 * py_pow total_mass (- 1 / 3) in
    let f_chemical_avg := np_mean (map f_chemical profiles) in
    let Z_compound := exp (np_mean (map impedance_log profiles)) in
    let scores := match_scores profiles in
    let avg_match := match scores with [] => 0 | _ => np_mean scores end in
    ResultDict
      (mkCompoundResult (map symbol profiles) total_mass f_acoustic_compound
         f_chemical_avg Z_compound avg_match
         (if Rgt_dec avg_match 0.5 then "Stable"
          else if Rlt_dec avg_match 0.2 then "Unstable"
          else "Metastable")%string).

(** The four interpretations a resolved pair can receive. *)
Definition MATCH_LABELS : list string :=
  [ "Excellent match - natural affinity";
    "Good match - can combine with moderate energy";
    "Weak match - requires significant energy to combine";
    "Poor match - unlikely to form stable compound" ]%string.

(** The band names, in the iteration order of [consciousness_freqs]. *)
Definition BAND_LABELS : list string := map fst consciousness_freqs.

(** The input symbols that are keys of the table, in input order. *)
Definition known_symbols (elems : list string) : list string :=
  filter (dict_mem ELEMENT_DATA) elems.

(** The nine categories [classify_element] can return. *)
Definition CATEGORY_LABELS : list string :=
  [ "Noble Gas"; "Nonmetal"; "Alkali Metal"; "Alkaline Earth"; "Halogen";
    "Transition Metal"; "Lanthanide"; "Actinide"; "Other Metal" ]%string.

(** The three values of [stability_prediction]. *)
Definition STABILITY_LABELS : list string :=
  [ "Stable"; "Unstable"; "Metastable" ]%string.

(** A table row inside the domain of the calculators: positive mass,
    ionization energy and radius, and a positive electronegativity when
    there is one. *)
Definition valid_row (row : ElementTuple) : Prop :=
  let '(_, mass, E_ion, chi, radius, _) := row in
  0 < mass /\ 0 < E_ion /\ 0 < radius
  /\ match chi with Some x => 0 < x | None => True end.

(** A row has no electronegativity exactly when its atomic number is
    classified as a noble gas. *)
Definition noble_row_consistent (row : ElementTuple) : bool :=
  let '(Z, _, _, chi, _, config) := row in
  Bool.eqb (match chi with None => true | Some _ => false end)
           (String.eqb (classify_element Z config) "Noble Gas").

(** [forallb] over the keys of a dictionary. *)
Definition keys_forallb {A : Type} (f : string -> bool) (d : list (string * A)) : bool :=
  forallb (fun kv => f (fst kv)) d.

(** ** Output helpers *)

(** Built-in [int(x)] on a float: truncation towards zero. *)
Definition py_int (x : R) : Z :=
  if Rle_dec 0 x then Int_part x else (- Int_part (- x))%Z.

(** [glyph * n] on strings: [n] copies, none when [n] is negative.  The
    result is kept as the list of its glyphs. *)
Definition py_str_repeat (glyph : string) (n : Z) : list string :=
  repeat glyph (Z.to_nat n).

(** The affinity bar of [print_element_profile]:
    [bar_len = int(affinity * 20)], then [bar_len] full and
    [20 - bar_len] empty cells. *)
Definition affinity_bar (affinity : R) : list string :=
  let bar_len := py_int (affinity * 20) in
  (py_str_repeat "█" bar_len ++ py_str_repeat "░" (20 - bar_len))%list.

(** The stability label as a function of the average match: the
    conditional expression in the result of [predict_compound_frequency]. *)
Definition stability_of (avg_match : R) : string :=
  (if Rgt_dec avg_match 0.5 then "Stable"
   else if Rlt_dec avg_match 0.2 then "Unstable"
   else "Metastable")%string.

(** The loop of [calculate_consciousness_affinity] with the affinity of
    a band left open: [aff f_brain] stands for the value computed for the
    band of frequency [f_brain].  [affinity_step] is the instance
    [aff := band_affinity f_acoustic]. *)
Definition scan_step (aff : R -> R) (st : string * R) (entry : string * R)
    : string * R :=
  let '(best_match, best_affinity) := st in
  let '(band, f_brain) := entry in
  let affinity := aff f_brain in
  if Rgt_dec affinity best_affinity then (band, affinity)
  else (best_match, best_affinity).

Definition scan_bands (aff : R -> R) : string * R :=
  fold_left (scan_step aff) consciousness_freqs ("none"%string, 0).

(** The affinity of one band as the specification words it, with
    [nearest_octave] rounded half away from zero; kept apart from
    [band_affinity] in order to compare the two. *)
Definition band_affinity_half_away (f_acoustic f_brain : R) : R :=
  let ratio := f_acoustic / f_brain in
  let log_ratio := log10 ratio in
  let deviation := Rabs (log_ratio - IZR (round_half_away_from_zero log_ratio)) in
  exp (- deviation * 5).

(** * Properties *)

(** ** Table lookup and analysis *)

Lemma dict_mem_true_iff {A : Type} (d : list (string * A)) (k : string) :
  dict_mem d k = true <-> exists v, dict_get d k = Some v.
Proof.
  unfold dict_mem. destruct (dict_get d k) as [v|].
  - split; [eauto | reflexivity].
  - split; [discriminate | intros [v Hv]; discriminate].
Qed.

Lemma dict_mem_false_iff {A : Type} (d : list (string * A)) (k : string) :
  dict_mem d k = false <-> dict_get d k = None.
Proof.
  unfold dict_mem. destruct (dict_get d k); split; congruence.
Qed.

Lemma ELEMENT_DATA_keys_distinct : keys_distinct (map fst ELEMENT_DATA) = true.
Proof. reflexivity. Qed.

Lemma ELEMENT_DATA_size : length ELEMENT_DATA = 47%nat.
Proof. reflexivity. Qed.

(** [analyze_element] returns [None] exactly on the symbols that are not
    keys of the table. *)
Lemma analyze_element_None (s : string) :
  analyze_element s = None <-> dict_mem ELEMENT_DATA s = false.
Proof.
  rewrite dict_mem_false_iff. unfold analyze_element.
  destruct (dict_get ELEMENT_DATA s) as [[[[[[Z mass] E] chi] radius] config]|].
  - split; [|discriminate].
    destruct (calculate_atomic_impedance _ _ _), (calculate_frequencies _ _) as [[? ?] ?],
      (calculate_consciousness_affinity _ _ _ _); discriminate.
  - tauto.
Qed.

Lemma analyze_element_Some (s : string) :
  dict_mem ELEMENT_DATA s = true -> exists p, analyze_element s = Some p.
Proof.
  intros H. destruct (analyze_element s) as [p|] eqn:E; [eauto|].
  apply analyze_element_None in E. congruence.
Qed.

(** The profile carries the symbol it was asked for. *)
Lemma analyze_element_symbol (s : string) (p : ElementProfile) :
  analyze_element s = Some p -> symbol p = s.
Proof.
  unfold analyze_element.
  destruct (dict_get ELEMENT_DATA s) as [[[[[[Z mass] E] chi] radius] config]|];
    [|discriminate].
  destruct (calculate_atomic_impedance _ _ _), (calculate_frequencies _ _) as [[? ?] ?],
    (calculate_consciousness_affinity _ _ _ _).
  intros H; injection H as <-. reflexivity.
Qed.

(** ** Impedance matching: unresolved symbols *)

Lemma interpret_match_label (x : R) : In (interpret_match x) MATCH_LABELS.
Proof.
  unfold interpret_match, MATCH_LABELS.
  destruct (Rgt_dec x 0.8); [simpl; tauto|].
  destruct (Rgt_dec x 0.5); [simpl; tauto|].
  destruct (Rgt_dec x 0.2); simpl; tauto.
Qed.

Lemma unknown_label_not_ordinary : ~ In (snd UNKNOWN_ELEMENT) MATCH_LABELS.
Proof.
  unfold UNKNOWN_ELEMENT, MATCH_LABELS. simpl.
  intros [H|[H|[H|[H|[]]]]]; discriminate H.
Qed.

Lemma impedance_match_unresolved (a b : string) :
  analyze_element a = None \/ analyze_element b = None ->
  calculate_impedance_match a b = UNKNOWN_ELEMENT.
Proof.
  unfold calculate_impedance_match.
  intros [H|H]; rewrite H; [reflexivity|].
  destruct (analyze_element a); reflexivity.
Qed.

(** Both symbols resolved: the score is [exp] of a non-positive number and
    the label is one of the four interpretations. *)
Lemma impedance_match_resolved (a b : string) (p1 p2 : ElementProfile) :
  analyze_element a = Some p1 -> analyze_element b = Some p2 ->
  let R := exp (- ((impedance_log p1 - impedance_log p2) ^ 2) / (2 * 0.5 ^ 2)) in
  calculate_impedance_match a b = (R, interpret_match R).
Proof.
  intros H1 H2. unfold calculate_impedance_match. rewrite H1, H2. reflexivity.
Qed.

(** [UNKNOWN_ELEMENT] is returned only for unresolved symbols, so a caller
    can tell it from every ordinary result. *)
Lemma impedance_match_unknown_iff (a b : string) :
  calculate_impedance_match a b = UNKNOWN_ELEMENT <->
  dict_mem ELEMENT_DATA a = false \/ dict_mem ELEMENT_DATA b = false.
Proof.
  rewrite <- !analyze_element_None. split.
  - intros H.
    destruct (analyze_element a) as [p1|] eqn:E1; [|tauto].
    destruct (analyze_element b) as [p2|] eqn:E2; [|tauto].
    exfalso. apply unknown_label_not_ordinary. rewrite <- H.
    rewrite (impedance_match_resolved a b p1 p2 E1 E2). simpl.
    apply interpret_match_label.
  - apply impedance_match_unresolved.
Qed.

(** C1: when at least one of the two symbols is not a key of the element
    table, [calculate_impedance_match] returns the not-found signal, the
    pair [(0.0, "Unknown element")].  Its label is none of the four
    interpretations, and no call on two symbols of the table returns it:
    such a call returns a different pair, labelled with one of the four
    interpretations. *)
Theorem C1_impedance_match_not_found (a b : string) :
  dict_mem ELEMENT_DATA a = false \/ dict_mem ELEMENT_DATA b = false ->
  calculate_impedance_match a b = (0, "Unknown element"%string)
  /\ ~ In (snd (calculate_impedance_match a b)) MATCH_LABELS
  /\ (forall c d : string,
        dict_mem ELEMENT_DATA c = true -> dict_mem ELEMENT_DATA d = true ->
        In (snd (calculate_impedance_match c d)) MATCH_LABELS
        /\ calculate_impedance_match c d <> calculate_impedance_match a b).
Proof.
  intros H. rewrite <- !analyze_element_None in H.
  rewrite (impedance_match_unresolved a b H).
  split; [reflexivity|]. split; [apply unknown_label_not_ordinary|].
  intros c d Hc Hd.
  destruct (analyze_element_Some c Hc) as [p1 Hp1].
  destruct (analyze_element_Some d Hd) as [p2 Hp2].
  assert (Hlabel : In (snd (calculate_impedance_match c d)) MATCH_LABELS).
  { rewrite (impedance_match_resolved c d p1 p2 Hp1 Hp2). cbn [snd].
    apply interpret_match_label. }
  split; [exact Hlabel|].
  intros Heq. apply unknown_label_not_ordinary. rewrite <- Heq. exact Hlabel.
Qed.

Lemma C1_witness :
  (dict_mem ELEMENT_DATA "Xx" = false \/ dict_mem ELEMENT_DATA "H" = false)
  /\ calculate_impedance_match "Xx" "H" = (0, "Unknown element"%string)
  /\ ~ In (snd (calculate_impedance_match "Xx" "H")) MATCH_LABELS.
Proof.
  assert (H : dict_mem ELEMENT_DATA "Xx" = false \/ dict_mem ELEMENT_DATA "H" = false)
    by (left; reflexivity).
  split; [exact H|].
  destruct (C1_impedance_match_not_found "Xx" "H" H) as [Hpair [Hlabel _]].
  split; [exact Hpair | exact Hlabel].
Defined.

(** ** Compound prediction: resolution of the input symbols *)

(** Dropping the unresolved symbols keeps exactly the keys of the table,
    in input order and with their multiplicity. *)
Lemma resolved_symbols (elems : list string) :
  map symbol (drop_none (map analyze_element elems)) = known_symbols elems.
Proof.
  unfold known_symbols.
  induction elems as [|e rest IH]; [reflexivity|].
  cbn [map filter].
  destruct (analyze_element e) as [p|] eqn:E.
  - destruct (dict_mem ELEMENT_DATA e) eqn:M.
    + cbn [drop_none map]. rewrite IH, (analyze_element_symbol e p E). reflexivity.
    + apply analyze_element_None in M. congruence.
  - apply analyze_element_None in E. rewrite E. exact IH.
Qed.

Lemma resolved_length (elems : list string) :
  length (drop_none (map analyze_element elems)) = length (known_symbols elems).
Proof.
  rewrite <- resolved_symbols. symmetry. apply length_map.
Qed.

Lemma predict_compound_insufficient (elems : list string) :
  (length (known_symbols elems) < 2)%nat ->
  predict_compound_frequency elems = INSUFFICIENT_ELEMENTS.
Proof.
  intros H. unfold predict_compound_frequency.
  rewrite resolved_length.
  destruct (Nat.ltb_spec (length (known_symbols elems)) 2); [reflexivity | lia].
Qed.

Lemma predict_compound_sufficient (elems : list string) :
  (2 <= length (known_symbols elems))%nat ->
  exists r, predict_compound_frequency elems = ResultDict r
            /\ elements r = known_symbols elems.
Proof.
  intros H. unfold predict_compound_frequency.
  rewrite resolved_length.
  destruct (Nat.ltb_spec (length (known_symbols elems)) 2); [lia|].
  eexists. split; [reflexivity|]. cbn [elements]. apply resolved_symbols.
Qed.

(** C2: [predict_compound_frequency] keeps only the symbols that are keys
    of the table; it returns the error dictionary exactly when fewer than
    two of them remain (so for one resolved symbol and for none), and a
    result dictionary listing the resolved symbols otherwise. *)
Theorem C2_predict_compound_insufficient_elements (elems : list string) :
  (predict_compound_frequency elems = INSUFFICIENT_ELEMENTS
     <-> (length (known_symbols elems) < 2)%nat)
  /\ ((exists r, predict_compound_frequency elems = ResultDict r
                 /\ elements r = known_symbols elems)
     <-> (2 <= length (known_symbols elems))%nat)
  /\ (length (known_symbols elems) = 1%nat ->
      predict_compound_frequency elems = INSUFFICIENT_ELEMENTS)
  /\ (known_symbols elems = [] ->
      predict_compound_frequency elems = INSUFFICIENT_ELEMENTS).
Proof.
  assert (Hdec : (length (known_symbols elems) < 2)%nat
                 \/ (2 <= length (known_symbols elems))%nat) by lia.
  repeat split.
  - intros Herr. destruct Hdec as [|Hge]; [assumption|].
    destruct (predict_compound_sufficient elems Hge) as [r [Hr _]].
    unfold INSUFFICIENT_ELEMENTS in Herr. congruence.
  - apply predict_compound_insufficient.
  - intros [r [Hr _]]. destruct Hdec as [Hlt|]; [|assumption].
    rewrite (predict_compound_insufficient elems Hlt) in Hr.
    unfold INSUFFICIENT_ELEMENTS in Hr. discriminate.
  - apply predict_compound_sufficient.
  - intros H1. apply predict_compound_insufficient. lia.
  - intros H0. apply predict_compound_insufficient. rewrite H0. simpl. lia.
Qed.

Lemma C2_witness :
  (length (known_symbols ["Xx"; "Fe"; "Yy"]%string) = 1%nat)
  /\ predict_compound_frequency ["Xx"; "Fe"; "Yy"]%string = INSUFFICIENT_ELEMENTS.
Proof.
  split; [reflexivity|].
  apply (proj1 (proj2 (proj2
    (C2_predict_compound_insufficient_elements ["Xx"; "Fe"; "Yy"]%string)))).
  reflexivity.
Defined.

(** The two failing inputs and the resolving input named by the
    specification. *)
Example predict_compound_Fe :
  predict_compound_frequency ["Fe"]%string = INSUFFICIENT_ELEMENTS.
Proof. apply predict_compound_insufficient. vm_compute. lia. Qed.

Example predict_compound_Xx_Yy :
  predict_compound_frequency ["Xx"; "Yy"]%string = INSUFFICIENT_ELEMENTS.
Proof. apply predict_compound_insufficient. vm_compute. lia. Qed.

Example predict_compound_Na_Cl :
  exists r, predict_compound_frequency ["Na"; "Cl"]%string = ResultDict r
            /\ elements r = ["Na"; "Cl"]%string
            /\ total_mass r = 22.99 + 35.45.
Proof.
  eexists. split; [reflexivity|]. split; [reflexivity|].
  cbn [total_mass]. unfold py_sum. simpl. lra.
Qed.

(** ** Rounding to the nearest octave *)

Lemma Int_part_unique (x : R) (k : Z) :
  IZR k <= x < IZR k + 1 -> Int_part x = k.
Proof.
  intros [Hlo Hhi]. unfold Int_part.
  assert (Hup : (k + 1)%Z = up x).
  { apply tech_up; rewrite plus_IZR; lra. }
  lia.
Qed.

Lemma frac_part_unique (x : R) (k : Z) :
  IZR k <= x < IZR k + 1 -> frac_part x = x - IZR k.
Proof.
  intros H. unfold frac_part. rewrite (Int_part_unique x k H). reflexivity.
Qed.

(** On a tie, [py_round] picks the even neighbour. *)
Lemma py_round_tie (k : Z) :
  py_round (IZR k + 1 / 2) = if Z.even k then k else (k + 1)%Z.
Proof.
  assert (H : IZR k <= IZR k + 1 / 2 < IZR k + 1) by lra.
  unfold py_round.
  rewrite (frac_part_unique _ k H), (Int_part_unique _ k H).
  destruct (Rlt_dec (IZR k + 1 / 2 - IZR k) (1 / 2)) as [Hl|_]; [lra|].
  destruct (Rlt_dec (1 / 2) (IZR k + 1 / 2 - IZR k)) as [Hl|_]; [lra|].
  reflexivity.
Qed.

Lemma py_round_tie_even (k : Z) : Z.even (py_round (IZR k + 1 / 2)) = true.
Proof.
  rewrite py_round_tie. destruct (Z.even k) eqn:E; [exact E|].
  rewrite Z.even_add, E. reflexivity.
Qed.

(** [py_round] returns an integer at distance at most one half. *)
Lemma py_round_nearest (x : R) : Rabs (x - IZR (py_round x)) <= 1 / 2.
Proof.
  destruct (base_fp x) as [Hge Hlt].
  unfold py_round.
  assert (Hx : x = IZR (Int_part x) + frac_part x) by (unfold frac_part; lra).
  set (n := Int_part x) in *. set (d := frac_part x) in *.
  destruct (Rlt_dec d (1 / 2)) as [H1|H1].
  - apply Rabs_le. lra.
  - destruct (Rlt_dec (1 / 2) d) as [H2|H2].
    + rewrite plus_IZR. apply Rabs_le. lra.
    + destruct (Z.even n); [|rewrite plus_IZR]; apply Rabs_le; lra.
Qed.

(** Away from ties the nearest integer is unique, so [py_round] is forced. *)
Lemma nearest_integer_unique (x : R) (n m : Z) :
  Rabs (x - IZR n) < 1 / 2 -> Rabs (x - IZR m) <= 1 / 2 -> n = m.
Proof.
  intros Hn Hm.
  apply Rabs_def2 in Hn. destruct Hn as [Hn1 Hn2].
  assert (Hm' : - (1 / 2) <= x - IZR m <= 1 / 2).
  { split.
    - pose proof (Rle_abs (- (x - IZR m))) as H. rewrite Rabs_Ropp in H. lra.
    - pose proof (Rle_abs (x - IZR m)). lra. }
  assert (Hlt1 : IZR (n - m) < 1) by (rewrite minus_IZR; lra).
  assert (Hlt2 : IZR (m - n) < 1) by (rewrite minus_IZR; lra).
  apply lt_IZR in Hlt1. apply lt_IZR in Hlt2. lia.
Qed.

Lemma round_half_away_nearest (x : R) :
  Rabs (x - IZR (round_half_away_from_zero x)) <= 1 / 2.
Proof.
  unfold round_half_away_from_zero.
  destruct (Rle_dec 0 x) as [H|H].
  - destruct (base_Int_part (x + 1 / 2)) as [H1 H2]. apply Rabs_le. lra.
  - destruct (base_Int_part (- x + 1 / 2)) as [H1 H2].
    rewrite opp_IZR. apply Rabs_le. lra.
Qed.

Lemma round_half_away_tie_half : round_half_away_from_zero (1 / 2) = 1%Z.
Proof.
  unfold round_half_away_from_zero.
  destruct (Rle_dec 0 (1 / 2)) as [_|H]; [|lra].
  apply Int_part_unique. lra.
Qed.

(** The deviation used by the affinity is the same for both rounding
    conventions: they differ only on ties, where either neighbour is one
    half away. *)
Lemma deviation_independent_of_tie_rule (x : R) :
  Rabs (x - IZR (py_round x)) = Rabs (x - IZR (round_half_away_from_zero x)).
Proof.
  pose proof (py_round_nearest x) as Hp.
  pose proof (round_half_away_nearest x) as Ha.
  destruct (Rlt_le_dec (Rabs (x - IZR (py_round x))) (1 / 2)) as [Hlt|Hge].
  - rewrite (nearest_integer_unique x _ _ Hlt Ha). reflexivity.
  - destruct (Rlt_le_dec (Rabs (x - IZR (round_half_away_from_zero x))) (1 / 2))
      as [Hlt'|Hge'].
    + rewrite (nearest_integer_unique x _ _ Hlt' Hp). reflexivity.
    + lra.
Qed.

Lemma log10_sqrt_10 : log10 (sqrt 10) = 1 / 2.
Proof.
  unfold log10.
  assert (H10 : 0 < sqrt 10) by (apply sqrt_lt_R0; lra).
  assert (Hln : ln 10 = ln (sqrt 10) + ln (sqrt 10)).
  { rewrite <- ln_mult by assumption. rewrite sqrt_sqrt by lra. reflexivity. }
  assert (Hpos : 0 < ln 10).
  { rewrite <- ln_1. apply ln_increasing; lra. }
  field_simplify_eq; lra.
Qed.

(** Rounding half away from zero on a tie: up for a non-negative
    integer part, down for a negative one. *)
Lemma round_half_away_tie (k : Z) :
  round_half_away_from_zero (IZR k + 1 / 2) = if (0 <=? k)%Z then (k + 1)%Z else k.
Proof.
  unfold round_half_away_from_zero.
  destruct (Z.leb_spec 0 k) as [Hk|Hk].
  - apply IZR_le in Hk.
    destruct (Rle_dec 0 (IZR k + 1 / 2)) as [_|Hn]; [|lra].
    apply Int_part_unique. rewrite plus_IZR. lra.
  - assert (Hk' : (k <= -1)%Z) by lia. apply IZR_le in Hk'.
    destruct (Rle_dec 0 (IZR k + 1 / 2)) as [Hp|_]; [lra|].
    assert (Hi : Int_part (- (IZR k + 1 / 2) + 1 / 2) = (- k)%Z).
    { apply Int_part_unique. rewrite opp_IZR. lra. }
    rewrite Hi. lia.
Qed.

(** The two conventions disagree on a tie exactly when the neighbour
    away from zero is odd. *)
Lemma tie_rules_differ_iff (k : Z) :
  py_round (IZR k + 1 / 2) <> round_half_away_from_zero (IZR k + 1 / 2)
  <-> ((0 <= k)%Z /\ Z.even k = true) \/ ((k < 0)%Z /\ Z.even k = false).
Proof.
  rewrite py_round_tie, round_half_away_tie.
  destruct (Z.leb_spec 0 k) as [Hk|Hk]; destruct (Z.even k) eqn:E;
    split; intros H; try lia; try tauto;
    try (destruct H as [[? ?]|[? ?]]; try lia; discriminate).
Qed.

Lemma band_affinity_tie_rule (f_acoustic f_brain : R) :
  band_affinity f_acoustic f_brain = band_affinity_half_away f_acoustic f_brain.
Proof.
  unfold band_affinity, band_affinity_half_away, nearest_octave.
  rewrite deviation_independent_of_tie_rule. reflexivity.
Qed.

(** C3 (as amended): [nearest_octave] is Python's [round]: an integer at
    distance at most one half from [log_ratio], and on every half-integer
    [k + 1/2] the even one of the two neighbours [k] and [k + 1].
    Rounding half away from zero gives [k + 1] for [k >= 0] and [k] for
    [k < 0]; the two differ exactly when [k >= 0] is even or [k < 0] is
    odd.  The deviation, and with it the affinity of every band, is the
    same under both conventions. *)
Theorem C3_nearest_octave_half_even :
  (forall log_ratio : R, Rabs (log_ratio - IZR (nearest_octave log_ratio)) <= 1 / 2)
  /\ (forall k : Z,
        nearest_octave (IZR k + 1 / 2) = if Z.even k then k else (k + 1)%Z)
  /\ (forall k : Z, Z.even (nearest_octave (IZR k + 1 / 2)) = true)
  /\ (forall k : Z,
        round_half_away_from_zero (IZR k + 1 / 2)
        = if (0 <=? k)%Z then (k + 1)%Z else k)
  /\ (forall k : Z,
        nearest_octave (IZR k + 1 / 2)
        <> round_half_away_from_zero (IZR k + 1 / 2)
        <-> ((0 <= k)%Z /\ Z.even k = true) \/ ((k < 0)%Z /\ Z.even k = false))
  /\ (forall log_ratio : R,
        Rabs (log_ratio - IZR (nearest_octave log_ratio))
        = Rabs (log_ratio - IZR (round_half_away_from_zero log_ratio)))
  /\ (forall f_acoustic f_brain : R,
        band_affinity f_acoustic f_brain
        = band_affinity_half_away f_acoustic f_brain).
Proof.
  unfold nearest_octave.
  split; [apply py_round_nearest|].
  split; [apply py_round_tie|].
  split; [apply py_round_tie_even|].
  split; [apply round_half_away_tie|].
  split; [apply tie_rules_differ_iff|].
  split; [apply deviation_independent_of_tie_rule|].
  apply band_affinity_tie_rule.
Qed.

(** C3 fails as stated: for [f_acoustic = 2 * sqrt 10] and the delta band
    ([f_brain = 2]) the value of [log_ratio] is the half-integer [1/2];
    the code rounds it to [0], round-half-away-from-zero gives [1]. *)
Lemma C3_counterexample :
  let log_ratio := log10 (2 * sqrt 10 / 2) in
  log_ratio = 1 / 2
  /\ nearest_octave log_ratio = 0%Z
  /\ round_half_away_from_zero log_ratio = 1%Z
  /\ nearest_octave log_ratio <> round_half_away_from_zero log_ratio.
Proof.
  assert (H : log10 (2 * sqrt 10 / 2) = 1 / 2).
  { replace (2 * sqrt 10 / 2) with (sqrt 10) by lra. apply log10_sqrt_10. }
  cbv zeta. rewrite H.
  assert (Hn : nearest_octave (1 / 2) = 0%Z).
  { unfold nearest_octave. replace (1 / 2) with (IZR 0 + 1 / 2) by lra.
    rewrite py_round_tie. reflexivity. }
  rewrite Hn, round_half_away_tie_half.
  repeat split; lia.
Qed.

(** ** Concrete values for hydrogen *)

Lemma sqrt_H_bounds : 5.469 < sqrt (13.598 * 2.20) < 5.470.
Proof.
  assert (Hs : sqrt (13.598 * 2.20) * sqrt (13.598 * 2.20) = 13.598 * 2.20)
    by (apply sqrt_sqrt; lra).
  pose proof (sqrt_pos (13.598 * 2.20)) as Hp.
  set (s := sqrt (13.598 * 2.20)) in *.
  split; nra.
Qed.

(** The impedance of hydrogen lies strictly between 10.318 and 10.321. *)
Lemma impedance_H_bounds :
  10.318 < sqrt (13.598 * 2.20) / 0.53 < 10.321.
Proof.
  pose proof sqrt_H_bounds as [Hlo Hhi]. split; lra.
Qed.

(** C4 (as amended): for ['H'] the profile has
    [impedance = sqrt(13.598 * 2.20) / 0.53], which is 10.32 within 0.01,
    and [f_quantum = 13.598 / 4.135667e-15], which is 3.288e15 within
    0.001e15. *)
Theorem C4_hydrogen_values :
  exists p, analyze_element "H" = Some p
    /\ impedance p = sqrt (13.598 * 2.20) / 0.53
    /\ Rabs (impedance p - 10.32) <= 0.01
    /\ f_quantum p = 13.598 / 4.135667e-15
    /\ Rabs (f_quantum p - 3.288e15) <= 0.001e15.
Proof.
  eexists. split; [reflexivity|].
  cbn [impedance f_quantum]. unfold H_PLANCK_EV.
  replace (53 / 100) with 0.53 by lra.
  pose proof impedance_H_bounds as [Hlo Hhi].
  repeat split.
  - apply Rabs_le. lra.
  - apply Rabs_le. lra.
Qed.

(** C4 fails as stated: the impedance of ['H'] is further than 0.01 from
    10.30. *)
Lemma C4_counterexample :
  exists p, analyze_element "H" = Some p
    /\ impedance p = sqrt (13.598 * 2.20) / 0.53
    /\ ~ Rabs (impedance p - 10.30) <= 0.01.
Proof.
  eexists. split; [reflexivity|].
  cbn [impedance].
  replace (53 / 100) with 0.53 by lra.
  split; [reflexivity|].
  pose proof impedance_H_bounds as [Hlo Hhi].
  intros H.
  pose proof (Rle_abs (sqrt (13.598 * 2.20) / 0.53 - 10.30)). lra.
Qed.

(** ** The impedance calculator *)

Lemma impedance_formula (E radius : R) (chi : option R) :
  calculate_atomic_impedance E chi radius =
  (match chi with
   | None => E / (radius / 100)
   | Some x => sqrt (E * x) / (radius / 100)
   end,
   ln (match chi with
       | None => E / (radius / 100)
       | Some x => sqrt (E * x) / (radius / 100)
       end + 1)).
Proof. reflexivity. Qed.






(** Absent electronegativity is not the formula at some fixed number. *)
Lemma no_default_electronegativity :
  ~ exists d : R, forall E radius : R, 0 < E -> 0 < radius ->
      fst (calculate_atomic_impedance E None radius)
      = fst (calculate_atomic_impedance E (Some d) radius).
Proof.
  intros [d Hd].
  pose proof (Hd 1 100 ltac:(lra) ltac:(lra)) as H1.
  pose proof (Hd 4 100 ltac:(lra) ltac:(lra)) as H4.
  rewrite !impedance_formula in H1, H4. cbn [fst] in H1, H4.
  replace (100 / 100) with 1 in H1, H4 by lra.
  unfold Rdiv in H1, H4. rewrite Rinv_1, !Rmult_1_r in H1, H4.
  rewrite Rmult_1_l in H1.
  assert (Hd1 : d = 1).
  { destruct (Rle_lt_dec 0 d) as [Hnn|Hneg].
    - rewrite <- (sqrt_sqrt d Hnn), <- H1. lra.
    - rewrite sqrt_neg_0 in H1 by lra. lra. }
  subst d. replace (4 * 1) with (2 * 2) in H4 by lra.
  rewrite sqrt_square in H4 by lra. lra.
Qed.

(** C6: for positive ionization energy and positive radius, with
    [r = radius / 100], the calculator returns [E / r] when the
    electronegativity is absent and [sqrt (E * chi) / r] when it is
    present, each with [impedance_log = ln (impedance + 1)]; the absent
    case is a branch of its own and agrees with no fixed numeric
    electronegativity (in particular not with 0). *)
Theorem C6_impedance_formula (E radius : R) :
  0 < E -> 0 < radius ->
  let r := radius / 100 in
  calculate_atomic_impedance E None radius = (E / r, ln (E / r + 1))
  /\ (forall chi : R, 0 <= chi ->
        calculate_atomic_impedance E (Some chi) radius
        = (sqrt (E * chi) / r, ln (sqrt (E * chi) / r + 1)))
  /\ fst (calculate_atomic_impedance E None radius)
     <> fst (calculate_atomic_impedance E (Some 0) radius)
  /\ ~ (exists d : R, forall E' radius' : R, 0 < E' -> 0 < radius' ->
          fst (calculate_atomic_impedance E' None radius')
          = fst (calculate_atomic_impedance E' (Some d) radius')).
Proof.
  intros HE Hr r. repeat split.
  - rewrite !impedance_formula. cbn [fst].
    rewrite Rmult_0_r, sqrt_0. fold r.
    assert (Hr' : 0 < r) by (unfold r; lra).
    assert (Hpos : 0 < E / r) by (apply Rdiv_lt_0_compat; assumption).
    unfold Rdiv at 2. rewrite Rmult_0_l. lra.
  - apply no_default_electronegativity.
Qed.

Lemma C6_witness :
  0 < 24.587 /\ 0 < 31
  /\ calculate_atomic_impedance 24.587 None 31
     = (24.587 / (31 / 100), ln (24.587 / (31 / 100) + 1))
  /\ calculate_atomic_impedance 24.587 (Some 2.20) 31
     = (sqrt (24.587 * 2.20) / (31 / 100),
        ln (sqrt (24.587 * 2.20) / (31 / 100) + 1)).
Proof.
  assert (HE : 0 < 24.587) by lra.
  assert (Hr : 0 < 31) by lra.
  split; [exact HE|]. split; [exact Hr|].
  destruct (C6_impedance_formula 24.587 31 HE Hr) as [Hnone [Hsome _]].
  split; [exact Hnone|]. apply Hsome. lra.
Defined.

(** ** The affinity scorer *)

Lemma band_affinity_pos (f_acoustic f_brain : R) :
  0 < band_affinity f_acoustic f_brain.
Proof. unfold band_affinity. apply exp_pos. Qed.

Lemma band_affinity_le_1 (f_acoustic f_brain : R) :
  band_affinity f_acoustic f_brain <= 1.
Proof.
  unfold band_affinity.
  set (d := Rabs _). assert (Hd : 0 <= d) by apply Rabs_pos.
  destruct (Req_dec d 0) as [H0|Hn0].
  - rewrite H0. replace (- 0 * 5) with 0 by lra. rewrite exp_0. lra.
  - rewrite <- exp_0. left. apply exp_increasing. lra.
Qed.

(** An iteration either keeps the state or installs the current band. *)
Lemma affinity_step_cases (f_acoustic : R) (st entry : string * R) :
  affinity_step f_acoustic st entry = st
  \/ affinity_step f_acoustic st entry
     = (fst entry, band_affinity f_acoustic (snd entry)).
Proof.
  destruct st as [bm ba], entry as [band fb]. unfold affinity_step.
  destruct (Rgt_dec (band_affinity f_acoustic fb) ba); [right | left]; reflexivity.
Qed.

(** Loop invariant rule for the scan over the bands. *)
Lemma affinity_fold_invariant (f_acoustic : R) (P : string * R -> Prop)
    (bands : list (string * R)) :
  (forall entry, In entry bands ->
     P (fst entry, band_affinity f_acoustic (snd entry))) ->
  forall st, P st -> P (fold_left (affinity_step f_acoustic) bands st).
Proof.
  induction bands as [|entry rest IH]; intros Hin st Hst; [exact Hst|].
  cbn [fold_left]. apply IH.
  - intros e He. apply Hin. right. exact He.
  - destruct (affinity_step_cases f_acoustic st entry) as [-> | ->];
      [exact Hst | apply Hin; left; reflexivity].
Qed.

(** The first band always replaces the initial placeholder. *)
Lemma affinity_first_step (f_acoustic : R) :
  affinity_step f_acoustic ("none"%string, 0) ("delta"%string, 2)
  = ("delta"%string, band_affinity f_acoustic 2).
Proof.
  unfold affinity_step.
  destruct (Rgt_dec (band_affinity f_acoustic 2) 0) as [_|Hn]; [reflexivity|].
  exfalso. apply Hn. apply band_affinity_pos.
Qed.

Lemma best_band_after_delta (f_acoustic : R) :
  best_band f_acoustic
  = fold_left (affinity_step f_acoustic) (tl consciousness_freqs)
      ("delta"%string, band_affinity f_acoustic 2).
Proof.
  rewrite <- affinity_first_step. reflexivity.
Qed.

Lemma best_band_spec (f_acoustic : R) :
  In (fst (best_band f_acoustic)) BAND_LABELS
  /\ 0 < snd (best_band f_acoustic) <= 1.
Proof.
  rewrite best_band_after_delta.
  apply (affinity_fold_invariant f_acoustic
           (fun st => In (fst st) BAND_LABELS /\ 0 < snd st <= 1)).
  - intros entry He. cbn [fst snd]. split.
    + unfold BAND_LABELS. apply in_map.
      unfold consciousness_freqs. right. exact He.
    + split; [apply band_affinity_pos | apply band_affinity_le_1].
  - cbn [fst snd]. split.
    + unfold BAND_LABELS, consciousness_freqs. left. reflexivity.
    + split; [apply band_affinity_pos | apply band_affinity_le_1].
Qed.

Lemma none_not_a_band : ~ In "none"%string BAND_LABELS.
Proof.
  unfold BAND_LABELS, consciousness_freqs. simpl.
  intros [H|[H|[H|[H|[H|[H|[]]]]]]]; discriminate H.
Qed.

Lemma py_min_range (x : R) : 0 <= x -> 0 <= py_min 1 x <= 1.
Proof.
  intros Hx. unfold py_min. destruct (Rlt_dec x 1); lra.
Qed.

Lemma impedance_factor_range (impedance : R) :
  0 < exp (- ((impedance - 3) / 2) ^ 2) <= 1.
Proof.
  split; [apply exp_pos|].
  assert (Hsq : 0 <= ((impedance - 3) / 2) ^ 2) by apply pow2_ge_0.
  destruct (Req_dec (((impedance - 3) / 2) ^ 2) 0) as [H0|Hn0].
  - rewrite H0, Ropp_0, exp_0. lra.
  - rewrite <- exp_0. left. apply exp_increasing. lra.
Qed.

(** The scorer's outputs, for any frequencies and impedance. *)
Lemma consciousness_affinity_spec (f_quantum f_acoustic f_chemical impedance : R) :
  let out := calculate_consciousness_affinity f_quantum f_acoustic f_chemical impedance in
  0 < fst out <= 1 /\ In (snd out) BAND_LABELS.
Proof.
  unfold calculate_consciousness_affinity. cbn [fst snd].
  destruct (best_band_spec f_acoustic) as [Hband [Hpos Hle]].
  destruct (impedance_factor_range impedance) as [Hfpos Hfle].
  split; [|exact Hband].
  set (best := snd (best_band f_acoustic)) in *.
  set (factor := exp _) in *.
  assert (Hprod : 0 < best * factor) by (apply Rmult_lt_0_compat; assumption).
  unfold py_min. destruct (Rlt_dec (best * factor) 1); lra.
Qed.

(** The clamp at 1 never changes the product. *)
Lemma affinity_clamp_inactive (f_quantum f_acoustic f_chemical impedance : R) :
  fst (calculate_consciousness_affinity f_quantum f_acoustic f_chemical impedance)
  = snd (best_band f_acoustic) * exp (- ((impedance - 3) / 2) ^ 2).
Proof.
  unfold calculate_consciousness_affinity. cbn [fst].
  destruct (best_band_spec f_acoustic) as [_ [Hpos Hle]].
  destruct (impedance_factor_range impedance) as [Hfpos Hfle].
  set (best := snd (best_band f_acoustic)) in *.
  set (factor := exp _) in *.
  unfold py_min. destruct (Rlt_dec (best * factor) 1) as [|Hn]; [reflexivity|].
  nra.
Qed.

(** The affinity fields of a profile are the scorer's outputs. *)
Lemma analyze_element_affinity (s : string) (p : ElementProfile) :
  analyze_element s = Some p ->
  consciousness_affinity p
  = fst (calculate_consciousness_affinity
           (f_quantum p) (f_acoustic p) (f_chemical p) (impedance p))
  /\ nearest_brainwave p
     = snd (calculate_consciousness_affinity
              (f_quantum p) (f_acoustic p) (f_chemical p) (impedance p)).
Proof.
  unfold analyze_element.
  destruct (dict_get ELEMENT_DATA s) as [[[[[[Z mass] E] chi] radius] config]|];
    [|discriminate].
  cbv zeta. unfold calculate_atomic_impedance, calculate_frequencies. cbv zeta.
  intros H. injection H as <-. split; reflexivity.
Qed.

(** C7: for every symbol of the element table, [analyze_element] returns
    a profile whose [consciousness_affinity] lies in [[0, 1]]. *)
Theorem C7_affinity_in_unit_interval (s : string) :
  dict_mem ELEMENT_DATA s = true ->
  exists p, analyze_element s = Some p
            /\ 0 <= consciousness_affinity p <= 1.
Proof.
  intros Hs. destruct (analyze_element_Some s Hs) as [p Hp].
  exists p. split; [exact Hp|].
  destruct (analyze_element_affinity s p Hp) as [-> _].
  pose proof (consciousness_affinity_spec
                (f_quantum p) (f_acoustic p) (f_chemical p) (impedance p)) as [H _].
  lra.
Qed.

Lemma C7_witness :
  dict_mem ELEMENT_DATA "Zn" = true
  /\ exists p, analyze_element "Zn" = Some p
               /\ 0 <= consciousness_affinity p <= 1.
Proof.
  split; [reflexivity|].
  apply (C7_affinity_in_unit_interval "Zn"). reflexivity.
Defined.

(** C10: for every symbol of the element table, [nearest_brainwave] is
    one of the six band labels and never the placeholder ['none'],
    because every band's affinity is strictly positive and so exceeds
    the initial [best_affinity] of 0. *)
Theorem C10_nearest_brainwave_is_a_band (s : string) :
  dict_mem ELEMENT_DATA s = true ->
  exists p, analyze_element s = Some p
    /\ In (nearest_brainwave p)
          ["delta"; "theta"; "alpha"; "beta"; "gamma"; "high_gamma"]%string
    /\ nearest_brainwave p <> "none"%string
    /\ (forall f_brain : R, band_affinity (f_acoustic p) f_brain > 0).
Proof.
  intros Hs. destruct (analyze_element_Some s Hs) as [p Hp].
  exists p. split; [exact Hp|].
  destruct (analyze_element_affinity s p Hp) as [_ Hnb].
  pose proof (consciousness_affinity_spec
                (f_quantum p) (f_acoustic p) (f_chemical p) (impedance p)) as [_ Hin].
  rewrite <- Hnb in Hin.
  split; [exact Hin|]. split.
  - intros Heq. apply none_not_a_band. rewrite <- Heq. exact Hin.
  - intros f_brain. apply band_affinity_pos.
Qed.

Lemma C10_witness :
  dict_mem ELEMENT_DATA "Au" = true
  /\ exists p, analyze_element "Au" = Some p
       /\ In (nearest_brainwave p)
             ["delta"; "theta"; "alpha"; "beta"; "gamma"; "high_gamma"]%string
       /\ nearest_brainwave p <> "none"%string
       /\ (forall f_brain : R, band_affinity (f_acoustic p) f_brain > 0).
Proof.
  split; [reflexivity|].
  apply (C10_nearest_brainwave_is_a_band "Au"). reflexivity.
Defined.

(** ** Impedance matching: symmetry and self-match *)

Lemma match_score_eq (p1 p2 : ElementProfile) :
  exp (- ((impedance_log p1 - impedance_log p2) ^ 2) / (2 * 0.5 ^ 2))
  = exp (- ((impedance_log p2 - impedance_log p1) ^ 2) / (2 * 0.5 ^ 2)).
Proof. f_equal. unfold Rdiv. f_equal. ring. Qed.

(** The whole result, score and label, does not depend on the order of
    the two symbols. *)
Lemma impedance_match_comm (a b : string) :
  calculate_impedance_match a b = calculate_impedance_match b a.
Proof.
  unfold calculate_impedance_match.
  destruct (analyze_element a) as [p1|], (analyze_element b) as [p2|];
    try reflexivity.
  cbv zeta. rewrite (match_score_eq p1 p2). reflexivity.
Qed.

(** C8: for every pair of symbols of the element table both calls
    resolve (the score is the Gaussian of the log-impedance difference,
    not the unknown-element pair), and the score of
    [calculate_impedance_match a b] equals that of
    [calculate_impedance_match b a]. *)
Theorem C8_impedance_match_symmetric (a b : string) :
  dict_mem ELEMENT_DATA a = true -> dict_mem ELEMENT_DATA b = true ->
  (exists p1 p2,
     analyze_element a = Some p1 /\ analyze_element b = Some p2
     /\ fst (calculate_impedance_match a b)
        = exp (- ((impedance_log p1 - impedance_log p2) ^ 2) / (2 * 0.5 ^ 2)))
  /\ fst (calculate_impedance_match a b) = fst (calculate_impedance_match b a).
Proof.
  intros Ha Hb.
  destruct (analyze_element_Some a Ha) as [p1 Hp1].
  destruct (analyze_element_Some b Hb) as [p2 Hp2].
  split.
  - exists p1, p2. split; [exact Hp1|]. split; [exact Hp2|].
    rewrite (impedance_match_resolved a b p1 p2 Hp1 Hp2). reflexivity.
  - rewrite (impedance_match_comm a b). reflexivity.
Qed.

Lemma C8_witness :
  dict_mem ELEMENT_DATA "Na" = true /\ dict_mem ELEMENT_DATA "Cl" = true
  /\ fst (calculate_impedance_match "Na" "Cl")
     = fst (calculate_impedance_match "Cl" "Na").
Proof.
  split; [reflexivity|]. split; [reflexivity|].
  apply (proj2 (C8_impedance_match_symmetric "Na" "Cl" eq_refl eq_refl)).
Defined.

(** C9: for every symbol of the element table, the match of the element
    with itself has a log-impedance difference of exactly 0 and a score
    of exactly 1. *)
Theorem C9_impedance_match_self (a : string) :
  dict_mem ELEMENT_DATA a = true ->
  exists p, analyze_element a = Some p
    /\ impedance_log p - impedance_log p = 0
    /\ fst (calculate_impedance_match a a) = 1.
Proof.
  intros Ha. destruct (analyze_element_Some a Ha) as [p Hp].
  exists p. split; [exact Hp|]. split; [lra|].
  rewrite (impedance_match_resolved a a p p Hp Hp). cbn [fst].
  replace (- ((impedance_log p - impedance_log p) ^ 2) / (2 * 0.5 ^ 2))
    with 0 by (unfold Rdiv; ring).
  apply exp_0.
Qed.

Lemma C9_witness :
  dict_mem ELEMENT_DATA "Fe" = true
  /\ exists p, analyze_element "Fe" = Some p
       /\ impedance_log p - impedance_log p = 0
       /\ fst (calculate_impedance_match "Fe" "Fe") = 1.
Proof.
  split; [reflexivity|].
  apply (C9_impedance_match_self "Fe"). reflexivity.
Defined.

(** A self-match is labelled as excellent. *)
Lemma impedance_match_self_label (a : string) :
  dict_mem ELEMENT_DATA a = true ->
  snd (calculate_impedance_match a a)
  = "Excellent match - natural affinity"%string.
Proof.
  intros Ha. destruct (analyze_element_Some a Ha) as [p Hp].
  rewrite (impedance_match_resolved a a p p Hp Hp). cbn [snd].
  replace (- ((impedance_log p - impedance_log p) ^ 2) / (2 * 0.5 ^ 2))
    with 0 by (unfold Rdiv; ring).
  rewrite exp_0. unfold interpret_match.
  destruct (Rgt_dec 1 0.8) as [_|Hn]; [reflexivity | lra].
Qed.

(** * Further properties of the calculators and analyzers *)

(** ** The element table *)

Lemma dict_get_In {A : Type} (d : list (string * A)) (k : string) (v : A) :
  dict_get d k = Some v -> In (k, v) d.
Proof.
  induction d as [|[k' v'] rest IH]; [discriminate|].
  cbn [dict_get]. destruct (String.eqb k k') eqn:E.
  - intros H. injection H as <-. apply String.eqb_eq in E. subst k'.
    left. reflexivity.
  - intros H. right. apply IH. exact H.
Qed.

Lemma dict_get_forallb {A : Type} (f : A -> bool) (d : list (string * A))
    (k : string) (v : A) :
  forallb (fun kv => f (snd kv)) d = true -> dict_get d k = Some v -> f v = true.
Proof.
  intros Hall Hget. apply dict_get_In in Hget.
  rewrite forallb_forall in Hall. exact (Hall (k, v) Hget).
Qed.

Lemma dict_get_keys_forallb {A : Type} (f : string -> bool) (d : list (string * A))
    (k : string) (v : A) :
  keys_forallb f d = true -> dict_get d k = Some v -> f k = true.
Proof.
  intros Hall Hget. apply dict_get_In in Hget.
  unfold keys_forallb in Hall. rewrite forallb_forall in Hall.
  exact (Hall (k, v) Hget).
Qed.

Ltac table_row := unfold valid_row; repeat split; lra.

Lemma ELEMENT_DATA_valid : Forall (fun kv => valid_row (snd kv)) ELEMENT_DATA.
Proof.
  unfold ELEMENT_DATA.
  repeat (apply Forall_cons; [cbn [snd]; table_row|]).
  apply Forall_nil.
Qed.

Lemma dict_get_valid (s : string) (row : ElementTuple) :
  dict_get ELEMENT_DATA s = Some row -> valid_row row.
Proof.
  intros H. apply dict_get_In in H.
  pose proof ELEMENT_DATA_valid as Hall. rewrite Forall_forall in Hall.
  exact (Hall (s, row) H).
Qed.

(** What [analyze_element] assembles from a row of the table. *)
Lemma analyze_element_row (s : string) (p : ElementProfile) :
  analyze_element s = Some p ->
  dict_get ELEMENT_DATA s
  = Some (atomic_number p, atomic_mass p, ionization_energy p,
          electronegativity p, atomic_radius p, electron_config p)
  /\ (impedance p, impedance_log p)
     = calculate_atomic_impedance (ionization_energy p) (electronegativity p)
         (atomic_radius p)
  /\ (f_quantum p, f_acoustic p, f_chemical p)
     = calculate_frequencies (ionization_energy p) (atomic_mass p)
  /\ category p = classify_element (atomic_number p) (electron_config p)
  /\ planetary_metal p = dict_get PLANETARY_METALS s
  /\ name p = dict_get_default ELEMENT_NAMES s s.
Proof.
  unfold analyze_element.
  destruct (dict_get ELEMENT_DATA s) as [[[[[[Z mass] E] chi] radius] config]|];
    [|discriminate].
  cbv zeta. unfold calculate_atomic_impedance, calculate_frequencies. cbv zeta.
  intros H. injection H as <-. cbn. repeat split.
Qed.

Lemma analyze_element_valid (s : string) (p : ElementProfile) :
  analyze_element s = Some p ->
  0 < atomic_mass p /\ 0 < ionization_energy p /\ 0 < atomic_radius p
  /\ match electronegativity p with Some x => 0 < x | None => True end.
Proof.
  intros H. destruct (analyze_element_row s p H) as [Hrow _].
  exact (dict_get_valid s _ Hrow).
Qed.

(** X1: [analyze_element] fails exactly on the symbols that are not keys
    of the table, and a profile it returns carries the symbol it was asked
    for, the six raw values of that symbol's row, and derived values
    computed from those raw values alone. *)
Theorem X1_analyze_element_lookup (s : string) :
  (analyze_element s = None <-> dict_get ELEMENT_DATA s = None)
  /\ (forall p, analyze_element s = Some p ->
        symbol p = s
        /\ dict_get ELEMENT_DATA s
           = Some (atomic_number p, atomic_mass p, ionization_energy p,
                   electronegativity p, atomic_radius p, electron_config p)
        /\ (impedance p, impedance_log p)
           = calculate_atomic_impedance (ionization_energy p)
               (electronegativity p) (atomic_radius p)
        /\ (f_quantum p, f_acoustic p, f_chemical p)
           = calculate_frequencies (ionization_energy p) (atomic_mass p)
        /\ category p = classify_element (atomic_number p) (electron_config p)).
Proof.
  split.
  - rewrite analyze_element_None. apply dict_mem_false_iff.
  - intros p Hp. split; [exact (analyze_element_symbol s p Hp)|].
    destruct (analyze_element_row s p Hp) as [H1 [H2 [H3 [H4 _]]]].
    repeat split; assumption.
Qed.

(** ** The impedance calculator on valid inputs *)

Lemma ln_1_plus_lt (z : R) : 0 < z -> 0 < ln (z + 1) < z.
Proof.
  intros Hz. split.
  - rewrite <- ln_1. apply ln_increasing; lra.
  - rewrite <- (ln_exp z) at 2. apply ln_increasing; [lra|].
    pose proof (exp_ineq1 z ltac:(lra)). lra.
Qed.

Lemma impedance_numerator_pos (E : R) (chi : option R) :
  0 < E -> match chi with Some x => 0 < x | None => True end ->
  0 < match chi with None => E | Some x => sqrt (E * x) end.
Proof.
  intros HE Hchi. destruct chi as [x|]; [|exact HE].
  apply sqrt_lt_R0. nra.
Qed.

Lemma impedance_as_quotient (E radius : R) (chi : option R) :
  fst (calculate_atomic_impedance E chi radius)
  = match chi with None => E | Some x => sqrt (E * x) end / (radius / 100).
Proof. rewrite impedance_formula. destruct chi; reflexivity. Qed.

Lemma calculate_atomic_impedance_positive (E radius : R) (chi : option R) :
  0 < E -> 0 < radius ->
  match chi with Some x => 0 < x | None => True end ->
  0 < fst (calculate_atomic_impedance E chi radius)
  /\ 0 < snd (calculate_atomic_impedance E chi radius)
         < fst (calculate_atomic_impedance E chi radius).
Proof.
  intros HE Hr Hchi.
  assert (HZ : 0 < fst (calculate_atomic_impedance E chi radius)).
  { rewrite impedance_as_quotient.
    apply Rdiv_lt_0_compat; [apply impedance_numerator_pos; assumption | lra]. }
  split; [exact HZ|].
  rewrite impedance_formula in *. cbn [fst snd] in *.
  apply ln_1_plus_lt. exact HZ.
Qed.

(** X2: over the reals, for positive ionization energy and radius, and
    a positive electronegativity when there is one, the impedance is
    positive and the log-scale value lies strictly between 0 and the
    impedance.  (In float64 [Z + 1] rounds to 1 for impedances below
    about 1e-16, where the strict bounds are lost.) *)
Theorem X2_impedance_positive (E radius : R) (chi : option R) :
  0 < E -> 0 < radius ->
  match chi with Some x => 0 < x | None => True end ->
  0 < fst (calculate_atomic_impedance E chi radius)
  /\ 0 < snd (calculate_atomic_impedance E chi radius)
         < fst (calculate_atomic_impedance E chi radius).
Proof. apply calculate_atomic_impedance_positive. Qed.

Lemma X2_witness :
  0 < 7.902 /\ 0 < 156
  /\ 0 < fst (calculate_atomic_impedance 7.902 (Some 1.83) 156).
Proof.
  assert (HE : 0 < 7.902) by lra.
  assert (Hr : 0 < 156) by lra.
  assert (Hchi : match Some 1.83 with Some x => 0 < x | None => True end) by lra.
  split; [exact HE|]. split; [exact Hr|].
  exact (proj1 (X2_impedance_positive 7.902 156 (Some 1.83) HE Hr Hchi)).
Defined.

(** X3: on such inputs the impedance never increases when the radius
    grows and never decreases when the ionization energy grows; over the
    reals both changes are strict.  (In float64 two inputs one rounding
    step apart can give the same impedance.) *)
Theorem X3_impedance_monotone (E E' radius radius' : R) (chi : option R) :
  0 < E -> 0 < radius ->
  match chi with Some x => 0 < x | None => True end ->
  (radius < radius' ->
   fst (calculate_atomic_impedance E chi radius')
   < fst (calculate_atomic_impedance E chi radius))
  /\ (E < E' ->
      fst (calculate_atomic_impedance E chi radius)
      < fst (calculate_atomic_impedance E' chi radius)).
Proof.
  intros HE Hr Hchi. rewrite !impedance_as_quotient. split.
  - intros Hlt.
    pose proof (impedance_numerator_pos E chi HE Hchi) as Hn.
    set (n := match chi with None => E | Some x => sqrt (E * x) end) in *.
    unfold Rdiv at 1 3.
    apply Rmult_lt_compat_l; [exact Hn|].
    apply Rinv_lt_contravar; [|lra].
    apply Rmult_lt_0_compat; lra.
  - intros Hlt.
    assert (Hinv : 0 < / (radius / 100))
      by (apply Rinv_0_lt_compat; lra).
    unfold Rdiv at 1 3. apply Rmult_lt_compat_r; [exact Hinv|].
    destruct chi as [x|]; [|exact Hlt].
    apply sqrt_lt_1; nra.
Qed.

Lemma X3_witness :
  0 < 5.139 /\ 0 < 190
  /\ (190 < 243 ->
      fst (calculate_atomic_impedance 5.139 (Some 0.93) 243)
      < fst (calculate_atomic_impedance 5.139 (Some 0.93) 190)).
Proof.
  assert (HE : 0 < 5.139) by lra.
  assert (Hr : 0 < 190) by lra.
  assert (Hchi : match Some 0.93 with Some x => 0 < x | None => True end) by lra.
  split; [exact HE|]. split; [exact Hr|].
  exact (proj1 (X3_impedance_monotone 5.139 5.139 190 243 (Some 0.93) HE Hr Hchi)).
Defined.

(** ** The frequency calculator *)

Lemma py_pow_pos (x y : R) : 0 < py_pow x y.
Proof. unfold py_pow, Rpower. apply exp_pos. Qed.

Lemma py_pow_neg_third_decreasing (m m' : R) :
  0 < m -> m < m' -> py_pow m' (- 1 / 3) < py_pow m (- 1 / 3).
Proof.
  intros Hm Hlt. unfold py_pow, Rpower. apply exp_increasing.
  assert (Hln : ln m < ln m') by (apply ln_increasing; assumption).
  lra.
Qed.

Lemma py_pow_one (y : R) : py_pow 1 y = 1.
Proof. unfold py_pow, Rpower. rewrite ln_1, Rmult_0_r. apply exp_0. Qed.

Lemma H_PLANCK_EV_pos : 0 < H_PLANCK_EV.
Proof. unfold H_PLANCK_EV. lra. Qed.

(** X4: for positive ionization energy and mass the three channel
    frequencies are positive; the chemical frequency is always 0.3 times
    the quantum frequency; and a mass of 1 amu gives an acoustic frequency
    of exactly 1e13 Hz. *)
Theorem X4_frequencies_positive (E mass : R) :
  0 < E -> 0 < mass ->
  let '(f_quantum, f_acoustic, f_chemical) := calculate_frequencies E mass in
  0 < f_quantum /\ 0 < f_acoustic /\ 0 < f_chemical
  /\ f_chemical = 0.3 * f_quantum
  /\ snd (fst (calculate_frequencies E 1)) = 1e13.
Proof.
  intros HE Hm. unfold calculate_frequencies. cbv zeta. cbn [fst snd].
  pose proof H_PLANCK_EV_pos as Hh.
  pose proof (py_pow_pos mass (- 1 / 3)) as Hp.
  repeat split.
  - apply Rdiv_lt_0_compat; assumption.
  - apply Rmult_lt_0_compat; [lra | exact Hp].
  - apply Rdiv_lt_0_compat; [lra | assumption].
  - unfold Rdiv. ring.
  - rewrite py_pow_one. lra.
Qed.

Lemma X4_witness :
  0 < 13.598 /\ 0 < 1.008
  /\ 0 < fst (fst (calculate_frequencies 13.598 1.008)).
Proof.
  assert (HE : 0 < 13.598) by lra.
  assert (Hm : 0 < 1.008) by lra.
  split; [exact HE|]. split; [exact Hm|].
  exact (proj1 (X4_frequencies_positive 13.598 1.008 HE Hm)).
Defined.

(** X5: a larger mass never gives a larger acoustic frequency, and over
    the reals a strictly smaller one, while the quantum and chemical
    frequencies do not depend on the mass.  (In float64 two masses one
    rounding step apart can give the same acoustic frequency.) *)
Theorem X5_acoustic_decreasing (E mass mass' : R) :
  0 < mass -> mass < mass' ->
  snd (fst (calculate_frequencies E mass'))
  < snd (fst (calculate_frequencies E mass))
  /\ fst (fst (calculate_frequencies E mass'))
     = fst (fst (calculate_frequencies E mass))
  /\ snd (calculate_frequencies E mass') = snd (calculate_frequencies E mass).
Proof.
  intros Hm Hlt. unfold calculate_frequencies. cbn [fst snd].
  split; [|split; reflexivity].
  apply Rmult_lt_compat_l; [lra|].
  apply py_pow_neg_third_decreasing; assumption.
Qed.

Lemma X5_witness :
  0 < 1.008 /\ 1.008 < 4.003
  /\ snd (fst (calculate_frequencies 13.598 4.003))
     < snd (fst (calculate_frequencies 13.598 1.008)).
Proof.
  assert (Hm : 0 < 1.008) by lra.
  assert (Hlt : 1.008 < 4.003) by lra.
  split; [exact Hm|]. split; [exact Hlt|].
  exact (proj1 (X5_acoustic_decreasing 13.598 1.008 4.003 Hm Hlt)).
Defined.

(** ** The band scan as a maximum search *)

(** The scan returns either its initial state, or the first entry whose
    affinity is maximal and strictly above the initial one.  Nothing is
    assumed of the affinity values. *)
Lemma scan_fold_max (aff : R -> R) (bands : list (string * R)) :
  forall st : string * R,
  let out := fold_left (scan_step aff) bands st in
  snd st <= snd out
  /\ (forall entry, In entry bands -> aff (snd entry) <= snd out)
  /\ (out = st
      \/ exists before entry after,
           bands = (before ++ entry :: after)%list
           /\ out = (fst entry, aff (snd entry))
           /\ snd st < snd out
           /\ forall e, In e before -> aff (snd e) < snd out).
Proof.
  induction bands as [|entry rest IH]; intros st.
  - cbn. split; [lra|]. split; [intros e []|]. left. reflexivity.
  - cbn [fold_left].
    specialize (IH (scan_step aff st entry)).
    cbv zeta in *. destruct IH as [Hge [Hall Hcase]].
    set (out := fold_left (scan_step aff) rest (scan_step aff st entry)) in *.
    assert (Hstep : (scan_step aff st entry = st /\ aff (snd entry) <= snd st)
                    \/ (scan_step aff st entry = (fst entry, aff (snd entry))
                        /\ snd st < aff (snd entry))).
    { destruct st as [bm ba], entry as [band fb]. unfold scan_step.
      cbn [fst snd].
      destruct (Rgt_dec (aff fb) ba) as [Hgt|Hngt].
      - right. split; [reflexivity | exact Hgt].
      - left. split; [reflexivity | apply Rnot_gt_le; exact Hngt]. }
    destruct Hstep as [[Hkeep Hle] | [Hnew Hlt]].
    + rewrite Hkeep in *. split; [exact Hge|]. split.
      * intros e [<-|He]; [lra | apply Hall; exact He].
      * destruct Hcase as [Hsame | [before [e [after [Hl [Hout [Hgt Hbef]]]]]]].
        -- left. exact Hsame.
        -- right. exists (entry :: before), e, after.
           split; [rewrite Hl; reflexivity|]. split; [exact Hout|].
           split; [exact Hgt|].
           intros e' [<-|He']; [lra | apply Hbef; exact He'].
    + rewrite Hnew in *. cbn [snd] in Hge.
      split; [lra|]. split.
      * intros e [<-|He]; [exact Hge | apply Hall; exact He].
      * right.
        destruct Hcase as [Hsame | [before [e [after [Hl [Hout [Hgt Hbef]]]]]]].
        -- exists [], entry, rest.
           split; [reflexivity|]. split; [exact Hsame|].
           rewrite Hsame. cbn [snd]. split; [exact Hlt|]. intros e' [].
        -- exists (entry :: before), e, after.
           split; [rewrite Hl; reflexivity|]. split; [exact Hout|].
           cbn [snd] in Hgt. split; [lra|].
           intros e' [<-|He']; [exact Hgt | apply Hbef; exact He'].
Qed.

(** The band loop of the scorer is the scan at the scorer's affinities. *)
Lemma best_band_scan (f_acoustic : R) :
  best_band f_acoustic = scan_bands (band_affinity f_acoustic).
Proof. reflexivity. Qed.

(** X6: the loop over the bands is a maximum search, whatever positive
    values the band affinities take: [best_affinity] is the affinity of
    the band [best_match], no band has a larger affinity, and every band
    listed before [best_match] has a strictly smaller one (a tie keeps
    the earlier band).  [best_band] is this loop at the affinities
    [band_affinity f_acoustic]. *)
Theorem X6_best_band_is_first_maximum (aff : R -> R) :
  (forall f_brain : R, 0 < aff f_brain) ->
  let best := scan_bands aff in
  (forall entry, In entry consciousness_freqs -> aff (snd entry) <= snd best)
  /\ (exists before f_brain after,
        consciousness_freqs = (before ++ (fst best, f_brain) :: after)%list
        /\ snd best = aff f_brain
        /\ forall e, In e before -> aff (snd e) < snd best)
  /\ (forall f_acoustic : R,
        best_band f_acoustic = scan_bands (band_affinity f_acoustic)).
Proof.
  intros Hpos. cbv zeta. unfold scan_bands at 1 2 3 4.
  pose proof (scan_fold_max aff consciousness_freqs ("none"%string, 0))
    as [Hge [Hall Hcase]].
  cbv zeta in *.
  set (out := fold_left (scan_step aff) consciousness_freqs
                ("none"%string, 0)) in *.
  split; [exact Hall|]. split; [|exact best_band_scan].
  destruct Hcase as [Hsame | [before [[band fb] [after [Hl [Hout [Hgt Hbef]]]]]]].
  - exfalso.
    assert (Hd : aff 2 <= snd out).
    { apply (Hall ("delta"%string, 2)). left. reflexivity. }
    pose proof (Hpos 2).
    rewrite Hsame in Hd. cbn [snd] in Hd. lra.
  - exists before, fb, after. rewrite Hout. cbn [fst snd] in *.
    split; [exact Hl|]. split; [reflexivity|].
    rewrite Hout in Hbef. exact Hbef.
Qed.

Lemma X6_witness :
  (forall f_brain : R, 0 < (fun _ : R => 1) f_brain)
  /\ (forall entry, In entry consciousness_freqs ->
        (fun _ : R => 1) (snd entry) <= snd (scan_bands (fun _ : R => 1))).
Proof.
  assert (Hpos : forall f_brain : R, 0 < (fun _ : R => 1) f_brain)
    by (intros f_brain; lra).
  split; [exact Hpos|].
  exact (proj1 (X6_best_band_is_first_maximum (fun _ : R => 1) Hpos)).
Defined.

(** Over the reals, dividing the band frequency by ten shifts
    [log_ratio] by one and leaves the distance to the nearest integer
    unchanged: delta and beta, alpha and high_gamma tie. *)
Lemma deviation_shift (x : R) :
  Rabs (x - 1 - IZR (py_round (x - 1))) = Rabs (x - IZR (py_round x)).
Proof.
  pose proof (py_round_nearest x) as Hx.
  pose proof (py_round_nearest (x - 1)) as Hy.
  assert (Hy' : Rabs (x - IZR (py_round (x - 1) + 1)) <= 1 / 2).
  { rewrite plus_IZR.
    replace (x - (IZR (py_round (x - 1)) + 1))
      with (x - 1 - IZR (py_round (x - 1))) by lra.
    exact Hy. }
  assert (Heq : x - 1 - IZR (py_round (x - 1))
                = x - IZR (py_round (x - 1) + 1)) by (rewrite plus_IZR; lra).
  rewrite Heq.
  destruct (Rlt_le_dec (Rabs (x - IZR (py_round x))) (1 / 2)) as [Hlt|Hge].
  - rewrite (nearest_integer_unique x _ _ Hlt Hy'). reflexivity.
  - destruct (Rlt_le_dec (Rabs (x - IZR (py_round (x - 1) + 1))) (1 / 2))
      as [Hlt'|Hge'].
    + rewrite (nearest_integer_unique x _ _ Hlt' Hx). reflexivity.
    + lra.
Qed.

Lemma band_affinity_decade (f_acoustic f_brain : R) :
  0 < f_acoustic -> 0 < f_brain ->
  band_affinity f_acoustic (10 * f_brain) = band_affinity f_acoustic f_brain.
Proof.
  intros Hf Hb. unfold band_affinity, nearest_octave.
  assert (Hlog : log10 (f_acoustic / (10 * f_brain))
                 = log10 (f_acoustic / f_brain) - 1).
  { unfold log10.
    replace (f_acoustic / (10 * f_brain)) with (f_acoustic / f_brain * / 10)
      by (field; lra).
    assert (Hq : 0 < f_acoustic / f_brain) by (apply Rdiv_lt_0_compat; assumption).
    rewrite ln_mult by (try assumption; lra).
    rewrite ln_Rinv by lra.
    assert (0 < ln 10) by (rewrite <- ln_1; apply ln_increasing; lra).
    field. lra. }
  rewrite Hlog, deviation_shift. reflexivity.
Qed.

(** ** The impedance factor *)

Lemma sq_le_of_abs_le (x y : R) : Rabs x <= Rabs y -> x ^ 2 <= y ^ 2.
Proof.
  intros H. rewrite <- (pow2_abs x), <- (pow2_abs y).
  pose proof (Rabs_pos x). pose proof (Rabs_pos y). nra.
Qed.

Lemma exp_le_compat (x y : R) : x <= y -> exp x <= exp y.
Proof.
  intros [Hlt | ->]; [left; apply exp_increasing; exact Hlt | lra].
Qed.

(** X7: for a fixed acoustic frequency the affinity is largest at
    impedance 3, where it equals [best_affinity], and it does not
    increase as the impedance moves away from 3 on either side. *)
Theorem X7_affinity_peaks_at_optimal_impedance
    (f_quantum f_acoustic f_chemical impedance impedance' : R) :
  Rabs (impedance - 3) <= Rabs (impedance' - 3) ->
  fst (calculate_consciousness_affinity f_quantum f_acoustic f_chemical impedance')
  <= fst (calculate_consciousness_affinity f_quantum f_acoustic f_chemical impedance)
  /\ fst (calculate_consciousness_affinity f_quantum f_acoustic f_chemical impedance)
     <= fst (calculate_consciousness_affinity f_quantum f_acoustic f_chemical 3)
  /\ fst (calculate_consciousness_affinity f_quantum f_acoustic f_chemical 3)
     = snd (best_band f_acoustic).
Proof.
  intros Habs. rewrite !affinity_clamp_inactive.
  destruct (best_band_spec f_acoustic) as [_ [Hpos _]].
  set (best := snd (best_band f_acoustic)) in *.
  assert (Hmono : forall a b, Rabs (a - 3) <= Rabs (b - 3) ->
            exp (- ((b - 3) / 2) ^ 2) <= exp (- ((a - 3) / 2) ^ 2)).
  { intros a b Hab. apply exp_le_compat.
    pose proof (sq_le_of_abs_le (a - 3) (b - 3) Hab) as Hsq.
    unfold Rdiv. rewrite !Rpow_mult_distr. nra. }
  assert (H3 : exp (- ((3 - 3) / 2) ^ 2) = 1).
  { replace (- ((3 - 3) / 2) ^ 2) with 0 by (unfold Rdiv; ring). apply exp_0. }
  split; [|split].
  - apply Rmult_le_compat_l; [lra | apply Hmono; exact Habs].
  - apply Rmult_le_compat_l; [lra|]. apply Hmono.
    replace (3 - 3) with 0 by lra. rewrite Rabs_R0. apply Rabs_pos.
  - rewrite H3. lra.
Qed.

Lemma X7_witness :
  Rabs (4 - 3) <= Rabs (10 - 3)
  /\ fst (calculate_consciousness_affinity 0 1e12 0 10)
     <= fst (calculate_consciousness_affinity 0 1e12 0 4).
Proof.
  assert (H : Rabs (4 - 3) <= Rabs (10 - 3)).
  { replace (4 - 3) with 1 by lra. replace (10 - 3) with 7 by lra.
    rewrite !Rabs_pos_eq by lra. lra. }
  split; [exact H|].
  exact (proj1 (X7_affinity_peaks_at_optimal_impedance 0 1e12 0 4 10 H)).
Defined.

(** ** Classification *)

Ltac classify_cases :=
  unfold classify_element;
  repeat match goal with
         | |- context [if ?c then _ else _] =>
             let E := fresh "Ecls" in destruct c eqn:E
         end.

Ltac classify_facts :=
  unfold z_in in *; cbn [existsb] in *;
  repeat rewrite ?Bool.orb_true_iff, ?Bool.orb_false_iff,
    ?Bool.andb_true_iff, ?Bool.andb_false_iff,
    ?Z.eqb_eq, ?Z.eqb_neq, ?Z.leb_le, ?Z.leb_gt in *.

(** X8: [classify_element] returns one of nine category names, whatever
    the atomic number (also zero, negative or beyond the periodic table)
    and the configuration string. *)
Theorem X8_classify_element_closed (n : Z) (config : string) :
  In (classify_element n config) CATEGORY_LABELS.
Proof.
  classify_cases; unfold CATEGORY_LABELS; cbn [In]; tauto.
Qed.

(** X9: the list rules never shadow the range rules: an atomic number is
    a transition metal exactly in 21..30, 39..48 and 72..80, a lanthanide
    exactly in 57..71 and an actinide exactly in 89..103; numbers below 1
    or above 103 fall through to the last rule. *)
Theorem X9_classify_element_ranges (n : Z) (config : string) :
  (classify_element n config = "Transition Metal"%string
     <-> (21 <= n <= 30 \/ 39 <= n <= 48 \/ 72 <= n <= 80)%Z)
  /\ (classify_element n config = "Lanthanide"%string <-> (57 <= n <= 71)%Z)
  /\ (classify_element n config = "Actinide"%string <-> (89 <= n <= 103)%Z)
  /\ ((n <= 0 \/ 104 <= n)%Z ->
      classify_element n config = "Other Metal"%string).
Proof.
  split; [split | split; [split | split; [split|]]].
  - classify_cases; intros Hcls; try discriminate Hcls; classify_facts; lia.
  - intros Hcls; classify_cases; try reflexivity; classify_facts; lia.
  - classify_cases; intros Hcls; try discriminate Hcls; classify_facts; lia.
  - intros Hcls; classify_cases; try reflexivity; classify_facts; lia.
  - classify_cases; intros Hcls; try discriminate Hcls; classify_facts; lia.
  - intros Hcls; classify_cases; try reflexivity; classify_facts; lia.
  - intros Hcls; classify_cases; try reflexivity; classify_facts; lia.
Qed.

Lemma ELEMENT_DATA_noble_consistent :
  forallb (fun kv => noble_row_consistent (snd kv)) ELEMENT_DATA = true.
Proof. reflexivity. Qed.

(** X10: for every symbol of the table, the profile has no
    electronegativity exactly when its category is "Noble Gas": the
    ionization-energy-only branch of the impedance formula is taken for
    the noble gases and for no other element. *)
Theorem X10_noble_gas_iff_no_electronegativity (s : string) (p : ElementProfile) :
  analyze_element s = Some p ->
  (electronegativity p = None <-> category p = "Noble Gas"%string)
  /\ (electronegativity p = None ->
      impedance p = ionization_energy p / (atomic_radius p / 100)).
Proof.
  intros Hp.
  destruct (analyze_element_row s p Hp) as [Hrow [Himp [_ [Hcat _]]]].
  pose proof (dict_get_forallb noble_row_consistent ELEMENT_DATA s _
                ELEMENT_DATA_noble_consistent Hrow) as Hc.
  unfold noble_row_consistent in Hc. rewrite <- Hcat in Hc.
  split.
  - destruct (electronegativity p) as [x|];
      destruct (String.eqb_spec (category p) "Noble Gas") as [Heq|Hne];
      cbn in Hc; try discriminate Hc; split; intros H;
      try discriminate H; try reflexivity; try exact Heq; contradiction.
  - intros Hnone. rewrite Hnone in Himp.
    rewrite impedance_formula in Himp. injection Himp as Hz _. exact Hz.
Qed.

Lemma X10_witness :
  exists p, analyze_element "Ar" = Some p
            /\ (electronegativity p = None <-> category p = "Noble Gas"%string).
Proof.
  eexists. split; [reflexivity|].
  exact (proj1 (X10_noble_gas_iff_no_electronegativity "Ar" _ eq_refl)).
Defined.

Lemma ELEMENT_DATA_all_named :
  keys_forallb (dict_mem ELEMENT_NAMES) ELEMENT_DATA = true.
Proof. reflexivity. Qed.

Lemma PLANETARY_METALS_all_known :
  keys_forallb (dict_mem ELEMENT_DATA) PLANETARY_METALS = true.
Proof. reflexivity. Qed.

(** X11: every key of the element table has an entry in the name table,
    so a profile's name is that entry and the fall-back to the bare symbol
    is never taken; and every planetary metal is a key of the element
    table, its profile carrying exactly its planetary entry. *)
Theorem X11_names_and_planetary_metals (s : string) :
  (forall p, analyze_element s = Some p ->
     dict_get ELEMENT_NAMES s = Some (name p)
     /\ planetary_metal p = dict_get PLANETARY_METALS s)
  /\ (forall d, dict_get PLANETARY_METALS s = Some d ->
        exists p, analyze_element s = Some p /\ planetary_metal p = Some d).
Proof.
  split.
  - intros p Hp.
    destruct (analyze_element_row s p Hp) as [Hrow [_ [_ [_ [Hpl Hname]]]]].
    split; [|exact Hpl].
    pose proof (dict_get_keys_forallb _ ELEMENT_DATA s _
                  ELEMENT_DATA_all_named Hrow) as Hmem.
    apply dict_mem_true_iff in Hmem. destruct Hmem as [nm Hnm].
    rewrite Hname. unfold dict_get_default. rewrite Hnm. reflexivity.
  - intros d Hd.
    pose proof (dict_get_keys_forallb _ PLANETARY_METALS s d
                  PLANETARY_METALS_all_known Hd) as Hmem.
    destruct (analyze_element_Some s Hmem) as [p Hp].
    exists p. split; [exact Hp|].
    destruct (analyze_element_row s p Hp) as [_ [_ [_ [_ [Hpl _]]]]].
    rewrite Hpl. exact Hd.
Qed.

(** ** Impedance matching on resolved symbols *)

Lemma match_exponent_nonpos (d : R) : - (d ^ 2) / (2 * 0.5 ^ 2) <= 0.
Proof.
  pose proof (pow2_ge_0 d) as Hd.
  replace (- (d ^ 2) / (2 * 0.5 ^ 2)) with (- (2 * d ^ 2)) by lra.
  lra.
Qed.

Lemma match_score_range (d : R) : 0 < exp (- (d ^ 2) / (2 * 0.5 ^ 2)) <= 1.
Proof.
  split; [apply exp_pos|].
  rewrite <- exp_0. apply exp_le_compat. apply match_exponent_nonpos.
Qed.

Lemma match_score_one_iff (d : R) :
  exp (- (d ^ 2) / (2 * 0.5 ^ 2)) = 1 <-> d = 0.
Proof.
  split.
  - intros H. rewrite <- exp_0 in H. apply exp_inv in H.
    replace (- (d ^ 2) / (2 * 0.5 ^ 2)) with (- (2 * d ^ 2)) in H by lra.
    assert (Hd : d ^ 2 = 0) by lra.
    destruct (Req_dec d 0) as [|Hn]; [assumption|].
    exfalso. pose proof (pow_nonzero d 2 Hn). contradiction.
  - intros ->. replace (- (0 ^ 2) / (2 * 0.5 ^ 2)) with 0 by lra.
    apply exp_0.
Qed.

(** X12: for two resolved symbols the score lies in (0, 1], the label is
    one of the four interpretations, and the score is 1 exactly when the
    two log-impedances are equal. *)
Theorem X12_impedance_match_score_range (a b : string) (p1 p2 : ElementProfile) :
  analyze_element a = Some p1 -> analyze_element b = Some p2 ->
  0 < fst (calculate_impedance_match a b) <= 1
  /\ In (snd (calculate_impedance_match a b)) MATCH_LABELS
  /\ (fst (calculate_impedance_match a b) = 1
      <-> impedance_log p1 = impedance_log p2).
Proof.
  intros H1 H2. rewrite (impedance_match_resolved a b p1 p2 H1 H2).
  cbn [fst snd]. split; [apply match_score_range|].
  split; [apply interpret_match_label|].
  rewrite match_score_one_iff. split; intros H; lra.
Qed.

Lemma X12_witness :
  exists p1 p2,
    analyze_element "Na" = Some p1 /\ analyze_element "Cl" = Some p2
    /\ 0 < fst (calculate_impedance_match "Na" "Cl") <= 1.
Proof.
  eexists. eexists. split; [reflexivity|]. split; [reflexivity|].
  exact (proj1 (X12_impedance_match_score_range "Na" "Cl" _ _ eq_refl eq_refl)).
Defined.

(** X13: the pair [(0.0, "Unknown element")] is returned if and only if
    one of the two symbols is not a key of the table; no pair of resolved
    symbols produces it. *)
Theorem X13_unknown_pair_iff_unresolved (a b : string) :
  calculate_impedance_match a b = (0, "Unknown element"%string)
  <-> dict_mem ELEMENT_DATA a = false \/ dict_mem ELEMENT_DATA b = false.
Proof. apply impedance_match_unknown_iff. Qed.

(** ** Compound prediction *)

Lemma fold_left_Rplus_acc (l : list R) (acc : R) :
  fold_left Rplus l acc = acc + fold_left Rplus l 0.
Proof.
  revert acc. induction l as [|x rest IH]; intros acc; cbn [fold_left].
  - lra.
  - rewrite (IH (acc + x)), (IH (0 + x)). lra.
Qed.

Lemma py_sum_nil : py_sum [] = 0.
Proof. reflexivity. Qed.

Lemma py_sum_cons (x : R) (l : list R) : py_sum (x :: l) = x + py_sum l.
Proof.
  unfold py_sum. cbn [fold_left]. rewrite fold_left_Rplus_acc. lra.
Qed.

(** The sum of a list whose entries lie in (lo, hi]. *)
Lemma py_sum_bounds (lo hi : R) (l : list R) :
  (forall x, In x l -> lo < x <= hi) ->
  l <> [] ->
  INR (length l) * lo < py_sum l <= INR (length l) * hi.
Proof.
  intros Hall Hne. induction l as [|x rest IH]; [congruence|].
  rewrite py_sum_cons. cbn [length]. rewrite S_INR.
  assert (Hx : lo < x <= hi) by (apply Hall; left; reflexivity).
  destruct rest as [|y rest'].
  - rewrite py_sum_nil. cbn [length INR]. lra.
  - assert (Hrest : INR (length (y :: rest')) * lo < py_sum (y :: rest')
                    <= INR (length (y :: rest')) * hi).
    { apply IH; [|discriminate]. intros z Hz. apply Hall. right. exact Hz. }
    lra.
Qed.

Lemma np_mean_bounds (lo hi : R) (l : list R) :
  (forall x, In x l -> lo < x <= hi) ->
  l <> [] ->
  lo < np_mean l <= hi.
Proof.
  intros Hall Hne.
  pose proof (py_sum_bounds lo hi l Hall Hne) as [Hlo Hhi].
  assert (Hn : 0 < INR (length l)).
  { apply lt_0_INR. destruct l; [congruence | cbn; lia]. }
  unfold np_mean.
  assert (Hid : INR (length l) * / INR (length l) = 1)
    by (apply Rinv_r; lra).
  unfold Rdiv. split.
  - apply Rmult_lt_reg_r with (INR (length l)); [exact Hn|].
    rewrite Rmult_assoc, (Rmult_comm (/ _)), Hid. lra.
  - apply Rmult_le_reg_r with (INR (length l)); [exact Hn|].
    rewrite Rmult_assoc, (Rmult_comm (/ _)), Hid. lra.
Qed.

Lemma np_mean_singleton (x : R) : np_mean [x] = x.
Proof.
  unfold np_mean. rewrite py_sum_cons, py_sum_nil. cbn [length INR]. field.
Qed.

Lemma np_mean_pair_same (x : R) : np_mean [x; x] = x.
Proof.
  unfold np_mean. rewrite !py_sum_cons, py_sum_nil.
  change (INR (length [x; x])) with (INR 2). rewrite (S_INR 1). cbn [INR]. field.
Qed.

(** Each profile kept by the filter is the analysis of its own symbol. *)
Lemma resolved_profiles_analyze (elems : list string) (p : ElementProfile) :
  In p (drop_none (map analyze_element elems)) ->
  analyze_element (symbol p) = Some p.
Proof.
  induction elems as [|e rest IH]; [intros []|].
  cbn [map]. destruct (analyze_element e) as [q|] eqn:E; cbn [drop_none].
  - intros [<-|Hin]; [|apply IH; exact Hin].
    rewrite (analyze_element_symbol e q E). exact E.
  - exact IH.
Qed.

(** The number of scored pairs among [n] profiles is [n (n - 1) / 2]. *)
Lemma match_scores_length (profiles : list ElementProfile) :
  (2 * length (match_scores profiles)
   = length profiles * (length profiles - 1))%nat.
Proof.
  induction profiles as [|p rest IH]; [reflexivity|].
  cbn [match_scores length]. rewrite length_app, length_map.
  rewrite Nat.sub_succ, Nat.sub_0_r.
  destruct rest as [|q rest']; [reflexivity|].
  cbn [length] in *. rewrite Nat.sub_succ, Nat.sub_0_r in IH. nia.
Qed.

Lemma match_scores_range (profiles : list ElementProfile) :
  (forall p, In p profiles -> analyze_element (symbol p) = Some p) ->
  forall x, In x (match_scores profiles) -> 0 < x <= 1.
Proof.
  induction profiles as [|p rest IH]; intros Hres x Hx; [destruct Hx|].
  cbn [match_scores] in Hx. apply in_app_or in Hx. destruct Hx as [Hx|Hx].
  - apply in_map_iff in Hx. destruct Hx as [q [<- Hq]].
    rewrite (impedance_match_resolved (symbol p) (symbol q) p q).
    + cbn [fst]. apply match_score_range.
    + apply Hres. left. reflexivity.
    + apply Hres. right. exact Hq.
  - apply IH; [|exact Hx]. intros q Hq. apply Hres. right. exact Hq.
Qed.

(** Every profile of the table has positive impedance and log-impedance. *)
Lemma profile_impedance_positive (s : string) (p : ElementProfile) :
  analyze_element s = Some p ->
  0 < impedance p /\ 0 < impedance_log p < impedance p.
Proof.
  intros Hp.
  destruct (analyze_element_valid s p Hp) as [_ [HE [Hr Hchi]]].
  destruct (analyze_element_row s p Hp) as [_ [Himp _]].
  pose proof (calculate_atomic_impedance_positive _ _ _ HE Hr Hchi) as H.
  rewrite <- Himp in H. exact H.
Qed.

Lemma profile_f_acoustic (s : string) (p : ElementProfile) :
  analyze_element s = Some p ->
  f_acoustic p = 1e13 * py_pow (atomic_mass p) (- 1 / 3).
Proof.
  intros Hp. destruct (analyze_element_row s p Hp) as [_ [_ [Hf _]]].
  unfold calculate_frequencies in Hf. injection Hf as _ Hf _. exact Hf.
Qed.

Lemma py_sum_pos (l : list R) :
  (forall x, In x l -> 0 < x) -> l <> [] -> 0 < py_sum l.
Proof.
  intros Hall Hne. induction l as [|x rest IH]; [congruence|].
  rewrite py_sum_cons.
  assert (Hx : 0 < x) by (apply Hall; left; reflexivity).
  destruct rest as [|y rest']; [rewrite py_sum_nil; lra|].
  assert (0 < py_sum (y :: rest')).
  { apply IH; [|discriminate]. intros z Hz. apply Hall. right. exact Hz. }
  lra.
Qed.

(** In a list of at least two positive numbers each entry is below the sum. *)
Lemma py_sum_exceeds_entry (l : list R) (x : R) :
  (forall y, In y l -> 0 < y) -> (2 <= length l)%nat -> In x l -> x < py_sum l.
Proof.
  intros Hall. revert x. induction l as [|a rest IH]; intros x Hlen Hin.
  - cbn in Hlen. lia.
  - rewrite py_sum_cons.
    assert (Ha : 0 < a) by (apply Hall; left; reflexivity).
    assert (Hrest : forall y, In y rest -> 0 < y)
      by (intros y Hy; apply Hall; right; exact Hy).
    assert (Hne : rest <> []) by (destruct rest; [cbn in Hlen; lia | discriminate]).
    pose proof (py_sum_pos rest Hrest Hne) as Hpos.
    destruct Hin as [<-|Hin]; [lra|].
    destruct rest as [|b [|c rest']].
    + destruct Hin.
    + destruct Hin as [<-|[]]. rewrite py_sum_cons, py_sum_nil. lra.
    + assert (x < py_sum (b :: c :: rest')).
      { apply IH; [exact Hrest | cbn; lia | exact Hin]. }
      lra.
Qed.

Lemma np_mean_pos (l : list R) :
  (forall x, In x l -> 0 < x) -> l <> [] -> 0 < np_mean l.
Proof.
  intros Hall Hne. unfold np_mean. apply Rdiv_lt_0_compat.
  - apply py_sum_pos; assumption.
  - apply lt_0_INR. destruct l; [congruence | cbn; lia].
Qed.

(** The dictionary built once the length check has passed. *)
Lemma predict_compound_result (elems : list string) :
  let profiles := drop_none (map analyze_element elems) in
  (2 <= length profiles)%nat ->
  predict_compound_frequency elems
  = ResultDict
      (mkCompoundResult (map symbol profiles)
         (py_sum (map atomic_mass profiles))
         (1e13 * py_pow (py_sum (map atomic_mass profiles)) (- 1 / 3))
         (np_mean (map f_chemical profiles))
         (exp (np_mean (map impedance_log profiles)))
         (match match_scores profiles with
          | [] => 0
          | _ => np_mean (match_scores profiles)
          end)
         (if Rgt_dec (match match_scores profiles with
                      | [] => 0
                      | _ => np_mean (match_scores profiles)
                      end) 0.5 then "Stable"
          else if Rlt_dec (match match_scores profiles with
                           | [] => 0
                           | _ => np_mean (match_scores profiles)
                           end) 0.2 then "Unstable"
          else "Metastable")%string).
Proof.
  intros profiles Hlen. unfold predict_compound_frequency. fold profiles.
  destruct (Nat.ltb_spec (length profiles) 2); [lia | reflexivity].
Qed.

Lemma predict_compound_result_inv (elems : list string) (r : CompoundResult) :
  predict_compound_frequency elems = ResultDict r ->
  (2 <= length (drop_none (map analyze_element elems)))%nat.
Proof.
  unfold predict_compound_frequency.
  destruct (Nat.ltb_spec (length (drop_none (map analyze_element elems))) 2);
    [unfold INSUFFICIENT_ELEMENTS; discriminate | intros _; assumption].
Qed.

Lemma match_scores_nonempty (profiles : list ElementProfile) :
  (2 <= length profiles)%nat -> match_scores profiles <> [].
Proof.
  intros Hlen Hnil.
  pose proof (match_scores_length profiles) as H. rewrite Hnil in H.
  cbn [length] in H. nia.
Qed.

(** X14: the nested loop scores every unordered pair of positions once:
    [n] profiles give [n (n - 1) / 2] scores, hence none for fewer than
    two profiles and at least one otherwise. *)
Theorem X14_match_scores_count (profiles : list ElementProfile) :
  (2 * length (match_scores profiles)
   = length profiles * (length profiles - 1))%nat
  /\ ((2 <= length profiles)%nat -> match_scores profiles <> []).
Proof.
  split; [apply match_scores_length | apply match_scores_nonempty].
Qed.

Lemma resolved_profiles_positive (elems : list string) (p : ElementProfile) :
  In p (drop_none (map analyze_element elems)) ->
  0 < atomic_mass p /\ 0 < impedance_log p.
Proof.
  intros Hin. pose proof (resolved_profiles_analyze elems p Hin) as Hp.
  destruct (analyze_element_valid _ p Hp) as [Hm _].
  destruct (profile_impedance_positive _ p Hp) as [_ [Hl _]].
  split; assumption.
Qed.

(** X15: every result dictionary lists exactly the resolved input
    symbols (at least two), has a positive total mass and acoustic
    frequency, a compound impedance above 1, and an average match in
    (0, 1]; the fall-back average of 0 for an empty score list is never
    taken.  The stability label is "Stable" exactly above 0.5 and
    "Unstable" exactly below 0.2. *)
Theorem X15_compound_result_invariants (elems : list string) (r : CompoundResult) :
  predict_compound_frequency elems = ResultDict r ->
  elements r = known_symbols elems
  /\ (2 <= length (elements r))%nat
  /\ 0 < total_mass r
  /\ 0 < f_acoustic_compound r
  /\ 1 < compound_impedance r
  /\ 0 < average_impedance_match r <= 1
  /\ In (stability_prediction r) STABILITY_LABELS
  /\ (stability_prediction r = "Stable"%string <-> average_impedance_match r > 0.5)
  /\ (stability_prediction r = "Unstable"%string <-> average_impedance_match r < 0.2).
Proof.
  intros Hr. pose proof (predict_compound_result_inv elems r Hr) as Hlen.
  rewrite (predict_compound_result elems Hlen) in Hr. injection Hr as <-.
  set (profiles := drop_none (map analyze_element elems)) in *.
  cbn [elements total_mass f_acoustic_compound compound_impedance
       average_impedance_match stability_prediction].
  assert (Hne : profiles <> []) by (destruct profiles; [cbn in Hlen; lia | discriminate]).
  assert (Hmass : 0 < py_sum (map atomic_mass profiles)).
  { apply py_sum_pos.
    - intros x Hx. apply in_map_iff in Hx. destruct Hx as [p [<- Hp]].
      apply (resolved_profiles_positive elems p Hp).
    - destruct profiles; [congruence | discriminate]. }
  assert (Hlog : 0 < np_mean (map impedance_log profiles)).
  { apply np_mean_pos.
    - intros x Hx. apply in_map_iff in Hx. destruct Hx as [p [<- Hp]].
      apply (resolved_profiles_positive elems p Hp).
    - destruct profiles; [congruence | discriminate]. }
  pose proof (match_scores_nonempty profiles Hlen) as Hsc.
  assert (Havg : 0 < np_mean (match_scores profiles) <= 1).
  { apply np_mean_bounds; [|exact Hsc].
    apply match_scores_range. intros p Hp.
    apply (resolved_profiles_analyze elems p Hp). }
  destruct (match_scores profiles) as [|x0 rest] eqn:Escores; [congruence|].
  set (avg := np_mean (x0 :: rest)) in *.
  split; [apply resolved_symbols|].
  split; [rewrite length_map; exact Hlen|].
  split; [exact Hmass|].
  split; [apply Rmult_lt_0_compat; [lra | apply py_pow_pos]|].
  split; [rewrite <- exp_0; apply exp_increasing; exact Hlog|].
  split; [exact Havg|].
  unfold STABILITY_LABELS.
  destruct (Rgt_dec avg 0.5) as [Hgt|Hngt].
  - split; [cbn; tauto|]. split; split; intros H;
      try reflexivity; try assumption; try discriminate H; lra.
  - destruct (Rlt_dec avg 0.2) as [Hlt|Hnlt].
    + split; [cbn; tauto|]. split; split; intros H;
        try reflexivity; try assumption; try discriminate H; lra.
    + split; [cbn; tauto|]. split; split; intros H;
        try discriminate H; lra.
Qed.

Lemma X15_witness :
  exists r, predict_compound_frequency ["Na"; "Cl"]%string = ResultDict r
            /\ 1 < compound_impedance r
            /\ 0 < average_impedance_match r <= 1.
Proof.
  eexists. split; [reflexivity|].
  pose proof (X15_compound_result_invariants ["Na"; "Cl"]%string _ eq_refl)
    as [_ [_ [_ [_ [Hz [Havg _]]]]]].
  split; [exact Hz | exact Havg].
Defined.

(** X16: in a result dictionary the total mass exceeds the mass of every
    listed element, and the compound acoustic frequency is strictly
    below the acoustic frequency of every listed element. *)
Theorem X16_compound_acoustic_below_elements (elems : list string)
    (r : CompoundResult) (s : string) :
  predict_compound_frequency elems = ResultDict r ->
  In s (elements r) ->
  exists p, analyze_element s = Some p
            /\ atomic_mass p < total_mass r
            /\ f_acoustic_compound r < f_acoustic p.
Proof.
  intros Hr Hs. pose proof (predict_compound_result_inv elems r Hr) as Hlen.
  rewrite (predict_compound_result elems Hlen) in Hr. injection Hr as <-.
  set (profiles := drop_none (map analyze_element elems)) in *.
  cbn [elements total_mass f_acoustic_compound] in *.
  apply in_map_iff in Hs. destruct Hs as [p [<- Hp]].
  pose proof (resolved_profiles_analyze elems p Hp) as Hap.
  exists p. split; [exact Hap|].
  assert (Hlt : atomic_mass p < py_sum (map atomic_mass profiles)).
  { apply py_sum_exceeds_entry.
    - intros y Hy. apply in_map_iff in Hy. destruct Hy as [q [<- Hq]].
      apply (resolved_profiles_positive elems q Hq).
    - rewrite length_map. exact Hlen.
    - apply in_map. exact Hp. }
  split; [exact Hlt|].
  rewrite (profile_f_acoustic _ p Hap).
  apply Rmult_lt_compat_l; [lra|].
  apply py_pow_neg_third_decreasing; [|exact Hlt].
  apply (resolved_profiles_positive elems p Hp).
Qed.

Lemma X16_witness :
  exists r p, predict_compound_frequency ["Na"; "Cl"]%string = ResultDict r
              /\ analyze_element "Cl" = Some p
              /\ f_acoustic_compound r < f_acoustic p.
Proof.
  destruct (X16_compound_acoustic_below_elements ["Na"; "Cl"]%string _ "Cl"
              eq_refl (or_intror (or_introl eq_refl))) as [p [Hp [_ Hf]]].
  eexists. exists p. split; [reflexivity|]. split; [exact Hp | exact Hf].
Defined.

(** ** Compounds of two elements *)

Lemma py_sum_pair (x y : R) : py_sum [x; y] = x + y.
Proof. rewrite !py_sum_cons, py_sum_nil. lra. Qed.

Lemma np_mean_pair (x y : R) : np_mean [x; y] = (x + y) / 2.
Proof.
  unfold np_mean. rewrite py_sum_pair.
  change (INR (length [x; y])) with (INR 2). rewrite (S_INR 1). cbn [INR].
  lra.
Qed.

Lemma profile_impedance_log (s : string) (p : ElementProfile) :
  analyze_element s = Some p -> impedance_log p = ln (impedance p + 1).
Proof.
  intros Hp. destruct (analyze_element_row s p Hp) as [_ [Himp _]].
  rewrite impedance_formula in Himp. injection Himp as Hz Hl.
  rewrite Hl, Hz. reflexivity.
Qed.

Lemma predict_compound_pair (a b : string) (p1 p2 : ElementProfile) :
  analyze_element a = Some p1 -> analyze_element b = Some p2 ->
  predict_compound_frequency [a; b]
  = ResultDict
      (mkCompoundResult [a; b]
         (atomic_mass p1 + atomic_mass p2)
         (1e13 * py_pow (atomic_mass p1 + atomic_mass p2) (- 1 / 3))
         ((f_chemical p1 + f_chemical p2) / 2)
         (exp ((impedance_log p1 + impedance_log p2) / 2))
         (fst (calculate_impedance_match a b))
         (stability_of (fst (calculate_impedance_match a b)))).
Proof.
  intros H1 H2.
  assert (Hprof : drop_none (map analyze_element [a; b]) = [p1; p2]).
  { cbn [map]. rewrite H1, H2. reflexivity. }
  rewrite predict_compound_result; rewrite Hprof; [|cbn; lia].
  cbn [map match_scores app].
  rewrite (analyze_element_symbol a p1 H1), (analyze_element_symbol b p2 H2).
  rewrite py_sum_pair, !np_mean_pair, np_mean_singleton. reflexivity.
Qed.

Lemma predict_compound_pair_unresolved (a b : string) :
  analyze_element a = None \/ analyze_element b = None ->
  predict_compound_frequency [a; b] = INSUFFICIENT_ELEMENTS.
Proof.
  intros H. apply predict_compound_insufficient.
  unfold known_symbols. cbn [filter].
  rewrite !analyze_element_None in H.
  destruct H as [H|H]; rewrite H;
    [destruct (dict_mem ELEMENT_DATA b) | destruct (dict_mem ELEMENT_DATA a)];
    cbn; lia.
Qed.

Lemma exp_half_sum_ln (x y : R) :
  0 < x -> 0 < y -> exp ((ln x + ln y) / 2) = sqrt (x * y).
Proof.
  intros Hx Hy. symmetry. apply sqrt_lem_1.
  - apply Rmult_le_pos; lra.
  - left. apply exp_pos.
  - rewrite <- exp_plus.
    replace ((ln x + ln y) / 2 + (ln x + ln y) / 2) with (ln x + ln y) by lra.
    rewrite exp_plus, !exp_ln by assumption. reflexivity.
Qed.

(** X17: for two resolved symbols the result lists both, the total mass
    is the sum of the two masses, the average match is the score of
    [calculate_impedance_match] on the pair, the chemical frequency is
    the mean of the two, and the compound impedance is the geometric mean
    of the two impedances each increased by one. *)
Theorem X17_compound_of_two (a b : string) (p1 p2 : ElementProfile) :
  analyze_element a = Some p1 -> analyze_element b = Some p2 ->
  exists r, predict_compound_frequency [a; b] = ResultDict r
    /\ elements r = [a; b]
    /\ total_mass r = atomic_mass p1 + atomic_mass p2
    /\ f_chemical_avg r = (f_chemical p1 + f_chemical p2) / 2
    /\ average_impedance_match r = fst (calculate_impedance_match a b)
    /\ compound_impedance r = sqrt ((impedance p1 + 1) * (impedance p2 + 1)).
Proof.
  intros H1 H2. eexists. split; [apply (predict_compound_pair a b p1 p2 H1 H2)|].
  cbn [elements total_mass f_chemical_avg average_impedance_match
       compound_impedance].
  repeat split.
  rewrite (profile_impedance_log a p1 H1), (profile_impedance_log b p2 H2).
  destruct (profile_impedance_positive a p1 H1) as [Hz1 _].
  destruct (profile_impedance_positive b p2 H2) as [Hz2 _].
  apply exp_half_sum_ln; lra.
Qed.

Lemma X17_witness :
  exists r, predict_compound_frequency ["Na"; "Cl"]%string = ResultDict r
    /\ total_mass r = 22.99 + 35.45
    /\ average_impedance_match r = fst (calculate_impedance_match "Na" "Cl").
Proof.
  destruct (X17_compound_of_two "Na" "Cl" _ _ eq_refl eq_refl)
    as [r [Hr [_ [Hm [_ [Havg _]]]]]].
  exists r. split; [exact Hr|]. split; [exact Hm | exact Havg].
Defined.

(** X18: a symbol may be listed twice.  The compound of a resolved
    element with itself has twice its mass, its chemical frequency, a
    compound impedance of its impedance plus one, an average match of 1
    and the label "Stable". *)
Theorem X18_compound_with_itself (a : string) (p : ElementProfile) :
  analyze_element a = Some p ->
  exists r, predict_compound_frequency [a; a] = ResultDict r
    /\ elements r = [a; a]
    /\ total_mass r = 2 * atomic_mass p
    /\ f_chemical_avg r = f_chemical p
    /\ compound_impedance r = impedance p + 1
    /\ average_impedance_match r = 1
    /\ stability_prediction r = "Stable"%string.
Proof.
  intros Hp. eexists. split; [apply (predict_compound_pair a a p p Hp Hp)|].
  cbn [elements total_mass f_chemical_avg average_impedance_match
       compound_impedance stability_prediction].
  assert (Hone : fst (calculate_impedance_match a a) = 1).
  { rewrite (impedance_match_resolved a a p p Hp Hp). cbn [fst].
    apply match_score_one_iff. lra. }
  destruct (profile_impedance_positive a p Hp) as [Hz _].
  split; [reflexivity|]. split; [lra|]. split; [lra|]. split.
  - replace ((impedance_log p + impedance_log p) / 2) with (impedance_log p) by lra.
    rewrite (profile_impedance_log a p Hp). apply exp_ln. lra.
  - split; [exact Hone|]. rewrite Hone. unfold stability_of.
    destruct (Rgt_dec 1 0.5) as [_|Hn]; [reflexivity | lra].
Qed.

Lemma X18_witness :
  exists r, predict_compound_frequency ["Fe"; "Fe"]%string = ResultDict r
    /\ total_mass r = 2 * 55.85
    /\ average_impedance_match r = 1.
Proof.
  destruct (X18_compound_with_itself "Fe" _ eq_refl)
    as [r [Hr [_ [Hm [_ [_ [Havg _]]]]]]].
  exists r. split; [exact Hr|]. split; [exact Hm | exact Havg].
Defined.

(** X19: exchanging the two symbols of a two-element input changes
    nothing but the order of the listed elements: both calls return the
    error dictionary, or both return results with the same mass,
    frequencies, impedance, average match and stability label. *)
Theorem X19_compound_pair_order (a b : string) :
  match predict_compound_frequency [a; b], predict_compound_frequency [b; a] with
  | ErrorDict e, ErrorDict e' => e = e'
  | ResultDict r, ResultDict r' =>
      elements r' = rev (elements r)
      /\ total_mass r' = total_mass r
      /\ f_acoustic_compound r' = f_acoustic_compound r
      /\ f_chemical_avg r' = f_chemical_avg r
      /\ compound_impedance r' = compound_impedance r
      /\ average_impedance_match r' = average_impedance_match r
      /\ stability_prediction r' = stability_prediction r
  | _, _ => False
  end.
Proof.
  destruct (analyze_element a) as [p1|] eqn:H1;
    destruct (analyze_element b) as [p2|] eqn:H2.
  - rewrite (predict_compound_pair a b p1 p2 H1 H2),
            (predict_compound_pair b a p2 p1 H2 H1).
    cbn [elements total_mass f_acoustic_compound f_chemical_avg
         compound_impedance average_impedance_match stability_prediction].
    rewrite (impedance_match_comm b a).
    replace (atomic_mass p2 + atomic_mass p1)
      with (atomic_mass p1 + atomic_mass p2) by lra.
    replace (f_chemical p2 + f_chemical p1)
      with (f_chemical p1 + f_chemical p2) by lra.
    replace (impedance_log p2 + impedance_log p1)
      with (impedance_log p1 + impedance_log p2) by lra.
    repeat split.
  - rewrite (predict_compound_pair_unresolved a b), (predict_compound_pair_unresolved b a);
      [reflexivity | left; exact H2 | right; exact H2].
  - rewrite (predict_compound_pair_unresolved a b), (predict_compound_pair_unresolved b a);
      [reflexivity | right; exact H1 | left; exact H1].
  - rewrite (predict_compound_pair_unresolved a b), (predict_compound_pair_unresolved b a);
      [reflexivity | left; exact H2 | left; exact H1].
Qed.

(** ** The affinity bar *)

Lemma py_int_bounds (x : R) (n : Z) :
  0 <= x <= IZR n -> (0 <= py_int x <= n)%Z.
Proof.
  intros [Hlo Hhi]. unfold py_int.
  destruct (Rle_dec 0 x) as [_|Hn]; [|contradiction].
  destruct (base_Int_part x) as [H1 H2].
  split.
  - assert (H : IZR (-1) < IZR (Int_part x)) by lra.
    apply lt_IZR in H. lia.
  - apply le_IZR. lra.
Qed.

Lemma affinity_bar_length (affinity : R) :
  0 <= affinity <= 1 -> length (affinity_bar affinity) = 20%nat.
Proof.
  intros H. unfold affinity_bar, py_str_repeat.
  assert (Hb : (0 <= py_int (affinity * 20) <= 20)%Z)
    by (apply py_int_bounds; lra).
  rewrite length_app, !repeat_length. lia.
Qed.

(** X20: for every profile of the table the affinity bar has between 0
    and 20 full cells and exactly 20 cells in all. *)
Theorem X20_affinity_bar_has_20_cells (s : string) (p : ElementProfile) :
  analyze_element s = Some p ->
  (0 <= py_int (consciousness_affinity p * 20) <= 20)%Z
  /\ length (affinity_bar (consciousness_affinity p)) = 20%nat.
Proof.
  intros Hp.
  destruct (analyze_element_affinity s p Hp) as [Haff _].
  pose proof (consciousness_affinity_spec
                (f_quantum p) (f_acoustic p) (f_chemical p) (impedance p)) as [H _].
  rewrite <- Haff in H.
  split; [apply py_int_bounds; lra | apply affinity_bar_length; lra].
Qed.

Lemma X20_witness :
  exists p, analyze_element "Zn" = Some p
            /\ length (affinity_bar (consciousness_affinity p)) = 20%nat.
Proof.
  eexists. split; [reflexivity|].
  exact (proj2 (X20_affinity_bar_has_20_cells "Zn" _ eq_refl)).
Defined.

(** ** Band affinities and powers of ten *)

Lemma Int_part_IZR (k : Z) : Int_part (IZR k) = k.
Proof. apply Int_part_unique. lra. Qed.

Lemma py_round_IZR (k : Z) : py_round (IZR k) = k.
Proof.
  unfold py_round, frac_part. rewrite Int_part_IZR.
  destruct (Rlt_dec (IZR k - IZR k) (1 / 2)) as [_|Hn]; [reflexivity | lra].
Qed.

Lemma ln_10_pos : 0 < ln 10.
Proof. rewrite <- ln_1. apply ln_increasing; lra. Qed.

Lemma log10_pow10 (n : nat) : log10 (10 ^ n) = INR n.
Proof.
  unfold log10. rewrite ln_pow by lra.
  pose proof ln_10_pos. field. lra.
Qed.

(** X21: every band affinity lies between [exp (-5/2)] and 1, because
    the rounded value is never further than one half from [log_ratio]; it
    is exactly 1 when the acoustic frequency is the band frequency times
    a power of ten. *)
Theorem X21_band_affinity_range (f_acoustic f_brain : R) :
  exp (- 5 / 2) <= band_affinity f_acoustic f_brain <= 1
  /\ (forall n : nat, 0 < f_brain ->
        band_affinity (f_brain * 10 ^ n) f_brain = 1).
Proof.
  split; [split|].
  - unfold band_affinity, nearest_octave. apply exp_le_compat.
    pose proof (py_round_nearest (log10 (f_acoustic / f_brain))). lra.
  - apply band_affinity_le_1.
  - intros n Hf. unfold band_affinity, nearest_octave.
    replace (f_brain * 10 ^ n / f_brain) with (10 ^ n) by (field; lra).
    rewrite log10_pow10, INR_IZR_INZ, py_round_IZR.
    replace (IZR (Z.of_nat n) - IZR (Z.of_nat n)) with 0 by lra.
    rewrite Rabs_R0. replace (- 0 * 5) with 0 by lra. apply exp_0.
Qed.

(** ** More on impedance matching *)

(** X22: the whole result of [calculate_impedance_match], score and
    label, is the same for [(a, b)] and [(b, a)], for resolved and for
    unresolved symbols alike; and the match of a resolved symbol with
    itself is labelled "Excellent match - natural affinity". *)
Theorem X22_impedance_match_label_symmetric (a b : string) :
  calculate_impedance_match a b = calculate_impedance_match b a
  /\ (dict_mem ELEMENT_DATA a = true ->
      snd (calculate_impedance_match a a)
      = "Excellent match - natural affinity"%string).
Proof.
  split; [apply impedance_match_comm | apply impedance_match_self_label].
Qed.

(** X23: the score only depends on the distance between the two
    log-impedances, and a larger distance never gives a larger score. *)
Theorem X23_impedance_match_monotone (a b c d : string)
    (pa pb pc pd : ElementProfile) :
  analyze_element a = Some pa -> analyze_element b = Some pb ->
  analyze_element c = Some pc -> analyze_element d = Some pd ->
  Rabs (impedance_log pa - impedance_log pb)
  <= Rabs (impedance_log pc - impedance_log pd) ->
  fst (calculate_impedance_match c d) <= fst (calculate_impedance_match a b).
Proof.
  intros Ha Hb Hc Hd Habs.
  rewrite (impedance_match_resolved a b pa pb Ha Hb),
          (impedance_match_resolved c d pc pd Hc Hd).
  cbn [fst]. apply exp_le_compat.
  pose proof (sq_le_of_abs_le _ _ Habs) as Hsq.
  set (x := (impedance_log pa - impedance_log pb) ^ 2) in *.
  set (y := (impedance_log pc - impedance_log pd) ^ 2) in *.
  lra.
Qed.

Lemma X23_witness :
  exists pa pb,
    analyze_element "Fe" = Some pa /\ analyze_element "Cu" = Some pb
    /\ fst (calculate_impedance_match "Fe" "Cu")
       <= fst (calculate_impedance_match "Fe" "Fe").
Proof.
  eexists. eexists. split; [reflexivity|]. split; [reflexivity|].
  apply (X23_impedance_match_monotone "Fe" "Fe" "Fe" "Cu" _ _ _ _
           eq_refl eq_refl eq_refl eq_refl).
  replace (impedance_log _ - impedance_log _) with 0 at 1 by (cbn; lra).
  rewrite Rabs_R0. apply Rabs_pos.
Defined.

(** ** Unresolved symbols have no influence *)

Lemma drop_none_known (elems : list string) :
  drop_none (map analyze_element (known_symbols elems))
  = drop_none (map analyze_element elems).
Proof.
  unfold known_symbols. induction elems as [|e rest IH]; [reflexivity|].
  cbn [filter map].
  destruct (dict_mem ELEMENT_DATA e) eqn:M.
  - cbn [map]. destruct (analyze_element e); cbn [drop_none]; rewrite IH; reflexivity.
  - apply analyze_element_None in M. rewrite M. cbn [drop_none]. exact IH.
Qed.

Lemma drop_none_app {A : Type} (l1 l2 : list (option A)) :
  drop_none (l1 ++ l2) = (drop_none l1 ++ drop_none l2)%list.
Proof.
  induction l1 as [|[a|] rest IH]; cbn [drop_none app]; [reflexivity | |exact IH].
  rewrite IH. reflexivity.
Qed.

Lemma predict_compound_same_profiles (elems elems' : list string) :
  drop_none (map analyze_element elems) = drop_none (map analyze_element elems') ->
  predict_compound_frequency elems = predict_compound_frequency elems'.
Proof.
  intros H. unfold predict_compound_frequency. rewrite H. reflexivity.
Qed.

(** X24: symbols that are not keys of the table have no influence on the
    prediction: removing them beforehand, or inserting one anywhere in
    the input, leaves the whole returned dictionary unchanged. *)
Theorem X24_unknown_symbols_ignored (elems front back : list string) (u : string) :
  predict_compound_frequency (known_symbols elems)
  = predict_compound_frequency elems
  /\ (dict_mem ELEMENT_DATA u = false ->
      predict_compound_frequency (front ++ u :: back)
      = predict_compound_frequency (front ++ back)).
Proof.
  split.
  - apply predict_compound_same_profiles. apply drop_none_known.
  - intros Hu. apply predict_compound_same_profiles.
    rewrite !map_app, !drop_none_app. cbn [map].
    apply analyze_element_None in Hu. rewrite Hu. reflexivity.
Qed.

Lemma X24_witness :
  dict_mem ELEMENT_DATA "Xx" = false
  /\ predict_compound_frequency (["Na"%string] ++ "Xx"%string :: ["Cl"%string])%list
     = predict_compound_frequency (["Na"%string] ++ ["Cl"%string])%list.
Proof.
  split; [reflexivity|].
  exact (proj2 (X24_unknown_symbols_ignored [] ["Na"%string] ["Cl"%string] "Xx")
           eq_refl).
Defined.

(** ** Every profile of the table *)

(** X25: for every symbol of the table the profile has a positive
    impedance, a log-impedance [ln (impedance + 1)] strictly between 0
    and the impedance, and three positive channel frequencies. *)
Theorem X25_profile_values_positive (s : string) (p : ElementProfile) :
  analyze_element s = Some p ->
  0 < impedance p
  /\ impedance_log p = ln (impedance p + 1)
  /\ 0 < impedance_log p < impedance p
  /\ 0 < f_quantum p /\ 0 < f_acoustic p /\ 0 < f_chemical p.
Proof.
  intros Hp.
  destruct (profile_impedance_positive s p Hp) as [Hz Hl].
  destruct (analyze_element_valid s p Hp) as [Hm [HE _]].
  destruct (analyze_element_row s p Hp) as [_ [_ [Hf _]]].
  unfold calculate_frequencies in Hf. injection Hf as Hq Ha Hc.
  pose proof H_PLANCK_EV_pos as Hh.
  split; [exact Hz|]. split; [exact (profile_impedance_log s p Hp)|].
  split; [exact Hl|].
  rewrite Hq, Ha, Hc. repeat split.
  - apply Rdiv_lt_0_compat; assumption.
  - apply Rmult_lt_0_compat; [lra | apply py_pow_pos].
  - apply Rdiv_lt_0_compat; [lra | assumption].
Qed.

Lemma X25_witness :
  exists p, analyze_element "He" = Some p
            /\ 0 < impedance p /\ 0 < f_acoustic p.
Proof.
  eexists. split; [reflexivity|].
  pose proof (X25_profile_values_positive "He" _ eq_refl)
    as [Hz [_ [_ [_ [Ha _]]]]].
  split; [exact Hz | exact Ha].
Defined.
